(** * A shallow embedding of the platformer simulation step (game_runner.c)

    The file embeds [check_collision] and [update_player] of
    [game_runner.c] and proves the properties of the simulation step.

    Number model.  The C type [float] is IEEE 754 binary32, evaluated in
    single precision with round-to-nearest-even; it is modelled by the
    standard library's [spec_float] at precision 24 and maximal exponent
    128.  The C type [int] is a 32-bit two's complement integer, carried
    as a [Z] whose arithmetic wraps around (the result a compiler gives
    where C leaves signed overflow undefined; no block of the game comes
    near it).  An [int] operand of a mixed expression is converted to
    [float] before the operation, as the usual arithmetic conversions of
    C prescribe.

    State model.  [update_player] mutates the [Player] it is given and
    reads the global array [level]; here it is a function from the old
    body to the new one, and the layout it scans is a parameter of
    [step], so that the properties can be stated for every layout.
    [update_player] is [step] at the game's own [level]. *)

From Stdlib Require Import ZArith List Bool Lia Permutation.
From Stdlib Require Import Floats.SpecFloat.
Import ListNotations.
Open Scope Z_scope.

(** ** Machine numbers *)

Definition float : Type := spec_float.

Module F32.

Definition prec : Z := 24.
Definition emax : Z := 128.

Definition add (a b : float) : float := SFadd prec emax a b.
Definition neg (a : float) : float := SFopp a.

(** [a < b], [a <= b], and the mirrored tests of C. *)
Definition lt (a b : float) : bool := SFltb a b.
Definition le (a b : float) : bool := SFleb a b.
Definition gt (a b : float) : bool := SFltb b a.
Definition ge (a b : float) : bool := SFleb b a.

(** Conversion of an [int] to [float]. *)
Definition of_int (z : Z) : float := binary_normalize prec emax z 0 false.

(** The literal [m * 2^e]. *)
Definition lit (m e : Z) : float := binary_normalize prec emax m e false.

Definition is_nan (a : float) : bool :=
  match a with S754_nan => true | _ => false end.

(** The order as propositions: [Less a b] says that the C test [a < b]
    is true, [Same a b] that [a == b] is true. *)
Definition Less (a b : float) : Prop := SFcompare a b = Some Lt.
Definition Same (a b : float) : Prop := SFcompare a b = Some Eq.
Definition LessEq (a b : float) : Prop := Less a b \/ Same a b.

(** The normal form of a nonzero integer of fewer than 25 bits: the
    mantissa [p] shifted left to 24 bits, with the matching exponent. *)
Definition shift (p : positive) (n : nat) : positive := Nat.iter n xO p.
Definition size (p : positive) : Z := Zpos (digits2_pos p).
Definition norm (s : bool) (p : positive) : float :=
  S754_finite s (shift p (Z.to_nat (24 - size p))) (size p - 24).
Definition signed (s : bool) (p : positive) : Z := cond_Zopp s (Zpos p).

End F32.

Module I32.

Definition wrap (z : Z) : Z := (z + 2147483648) mod 4294967296 - 2147483648.
Definition add (a b : Z) : Z := wrap (a + b).
Definition sub (a b : Z) : Z := wrap (a - b).

End I32.

(** ** Constants of game_runner.c *)

Definition WINDOW_WIDTH : Z := 800.
Definition WINDOW_HEIGHT : Z := 600.
Definition PLAYER_SIZE : Z := 20.
Definition BLOCK_SIZE : Z := 40.
Definition GRAVITY : float := F32.lit 1 (-1).            (* 0.5f *)
Definition JUMP_STRENGTH : float := F32.neg (F32.lit 12 0). (* -12.0f *)
Definition MOVE_SPEED : float := F32.lit 5 0.            (* 5.0f *)

(** ** Data *)

Record Player : Type := mkPlayer {
  x : float;
  y : float;
  vx : float;
  vy : float;
  on_ground : bool
}.

(** The fields [x] and [y] of the C struct [Block] are [bx] and [by_]
    here, the names [check_collision] gives them, since [x] and [y] are
    taken by [Player]. *)
Record Block : Type := mkBlock {
  bx : Z;
  by_ : Z
}.

Definition set_x (p : Player) (v : float) : Player :=
  mkPlayer v (y p) (vx p) (vy p) (on_ground p).
Definition set_y (p : Player) (v : float) : Player :=
  mkPlayer (x p) v (vx p) (vy p) (on_ground p).
Definition set_vx (p : Player) (v : float) : Player :=
  mkPlayer (x p) (y p) v (vy p) (on_ground p).
Definition set_vy (p : Player) (v : float) : Player :=
  mkPlayer (x p) (y p) (vx p) v (on_ground p).
Definition set_on_ground (p : Player) (g : bool) : Player :=
  mkPlayer (x p) (y p) (vx p) (vy p) g.

(** The hardcoded layout. *)
Definition level : list Block :=
  [ mkBlock 0 560; mkBlock 40 560; mkBlock 80 560; mkBlock 120 560;
    mkBlock 160 560; mkBlock 200 560; mkBlock 240 560; mkBlock 280 560;
    mkBlock 320 560; mkBlock 360 560; mkBlock 400 560; mkBlock 440 560;
    mkBlock 480 560; mkBlock 520 560; mkBlock 560 560; mkBlock 600 560;
    mkBlock 640 560; mkBlock 680 560; mkBlock 720 560; mkBlock 760 560;
    mkBlock 200 480; mkBlock 240 480; mkBlock 280 480;
    mkBlock 400 400; mkBlock 440 400;
    mkBlock 600 320; mkBlock 640 320; mkBlock 680 320;
    mkBlock 100 360; mkBlock 140 360;
    mkBlock 500 240; mkBlock 540 240; mkBlock 580 240 ].

(** [sizeof(level) / sizeof(Block)]: both loops run over the whole
    array, front to back. *)
Definition level_size : Z := Z.of_nat (length level).

(** ** Keyboard state

    [keys] is SDL's array of [Uint8], indexed by scancode; an entry is
    held when it is not zero.  The scancodes are those of SDL2's
    [SDL_scancode.h]. *)

Definition keystate : Type := Z -> Z.

Definition SDL_SCANCODE_A : Z := 4.
Definition SDL_SCANCODE_D : Z := 7.
Definition SDL_SCANCODE_W : Z := 26.
Definition SDL_SCANCODE_SPACE : Z := 44.
Definition SDL_SCANCODE_RIGHT : Z := 79.
Definition SDL_SCANCODE_LEFT : Z := 80.
Definition SDL_SCANCODE_UP : Z := 82.

Definition held (keys : keystate) (code : Z) : bool := negb (keys code =? 0).

Definition left_held (keys : keystate) : bool :=
  held keys SDL_SCANCODE_LEFT || held keys SDL_SCANCODE_A.
Definition right_held (keys : keystate) : bool :=
  held keys SDL_SCANCODE_RIGHT || held keys SDL_SCANCODE_D.
Definition jump_held (keys : keystate) : bool :=
  held keys SDL_SCANCODE_SPACE || held keys SDL_SCANCODE_UP
  || held keys SDL_SCANCODE_W.

(** ** check_collision *)

Definition check_collision (px py : float) (bx by_ : Z) : bool :=
  F32.lt px (F32.of_int (I32.add bx BLOCK_SIZE))
  && F32.gt (F32.add px (F32.of_int PLAYER_SIZE)) (F32.of_int bx)
  && F32.lt py (F32.of_int (I32.add by_ BLOCK_SIZE))
  && F32.gt (F32.add py (F32.of_int PLAYER_SIZE)) (F32.of_int by_).

Definition hits (px py : float) (b : Block) : bool :=
  check_collision px py (bx b) (by_ b).

(** ** update_player, phase by phase *)

(** Lines 83-98: velocity from the keys, jump, gravity. *)
Definition apply_input (p : Player) (keys : keystate) : Player :=
  let p := set_vx p (F32.of_int 0) in
  let p := if left_held keys then set_vx p (F32.neg MOVE_SPEED) else p in
  let p := if right_held keys then set_vx p MOVE_SPEED else p in
  let p := if jump_held keys && on_ground p
           then set_on_ground (set_vy p JUMP_STRENGTH) false
           else p in
  set_vy p (F32.add (vy p) GRAVITY).

(** Lines 109-114: the loop that sets [x_collision]. *)
Fixpoint scan_x (lvl : list Block) (new_x py : float) : bool :=
  match lvl with
  | [] => false
  | b :: rest =>
      if check_collision new_x py (bx b) (by_ b) then true
      else scan_x rest new_x py
  end.

(** Lines 106-118. *)
Definition move_x (lvl : list Block) (p : Player) : Player :=
  let new_x := F32.add (x p) (vx p) in
  let x_collision := scan_x lvl new_x (y p) in
  if negb x_collision
     && F32.ge new_x (F32.of_int 0)
     && F32.le new_x (F32.of_int (I32.sub WINDOW_WIDTH PLAYER_SIZE))
  then set_x p new_x
  else p.

(** Lines 130-143: the loop that resolves against the first block hit;
    the second component is [y_collision]. *)
Fixpoint scan_y (lvl : list Block) (new_y : float) (p : Player)
  : Player * bool :=
  match lvl with
  | [] => (p, false)
  | b :: rest =>
      if check_collision (x p) new_y (bx b) (by_ b) then
        if F32.gt (vy p) (F32.of_int 0) then
          (set_on_ground
             (set_vy (set_y p (F32.of_int (I32.sub (by_ b) PLAYER_SIZE)))
                     (F32.of_int 0))
             true,
           true)
        else
          (set_vy (set_y p (F32.of_int (I32.add (by_ b) BLOCK_SIZE)))
                  (F32.of_int 0),
           true)
      else scan_y rest new_y p
  end.

(** Lines 126-147. *)
Definition move_y (lvl : list Block) (p : Player) : Player :=
  let new_y := F32.add (y p) (vy p) in
  let p := set_on_ground p false in
  let '(p, y_collision) := scan_y lvl new_y p in
  if negb y_collision then set_y p new_y else p.

(** Lines 150-154. *)
Definition keep_in_bounds (p : Player) : Player :=
  if F32.gt (y p) (F32.of_int WINDOW_HEIGHT) then
    set_vy (set_y (set_x p (F32.of_int 100)) (F32.of_int 400)) (F32.of_int 0)
  else p.

(** The step over an arbitrary layout, and [update_player] itself, which
    reads the global [level]. *)
Definition step (lvl : list Block) (p : Player) (keys : keystate) : Player :=
  keep_in_bounds (move_y lvl (move_x lvl (apply_input p keys))).

Definition update_player (p : Player) (keys : keystate) : Player :=
  step level p keys.


(** ** Vocabulary of the properties *)

(** The two outcomes of the vertical loop when it stops at block [b]. *)
Definition land_on (p : Player) (b : Block) : Player :=
  mkPlayer (x p) (F32.of_int (I32.sub (by_ b) PLAYER_SIZE)) (vx p)
           (F32.of_int 0) true.

Definition bonk_under (p : Player) (b : Block) : Player :=
  mkPlayer (x p) (F32.of_int (I32.add (by_ b) BLOCK_SIZE)) (vx p)
           (F32.of_int 0) (on_ground p).

(** The body's box at [(px, py)] overlaps no block of the layout. *)
Definition clear_of (lvl : list Block) (px py : float) : Prop :=
  forall b, In b lvl -> hits px py b = false.

(** [b] is the first block of [lvl], in list order, hit at [(px, py)]. *)
Definition first_hit (lvl : list Block) (px py : float) (b : Block) : Prop :=
  exists pre post,
    lvl = pre ++ b :: post /\
    (forall b', In b' pre -> hits px py b' = false) /\
    hits px py b = true.

(** ** Inputs of the worked scenarios *)

Definition no_keys : keystate := fun _ => 0.
Definition only (code : Z) : keystate := fun k => if k =? code then 1 else 0.

(** A body at integer coordinates, at rest. *)
Definition at_rest (px py : Z) (g : bool) : Player :=
  mkPlayer (F32.of_int px) (F32.of_int py) (F32.of_int 0) (F32.of_int 0) g.

(** A body at integer coordinates with vertical velocity [m * 2^e]. *)
Definition moving (px py m e : Z) (g : bool) : Player :=
  mkPlayer (F32.of_int px) (F32.of_int py) (F32.of_int 0) (F32.lit m e) g.

(** The spawn pose set by [main]. *)
Definition spawn : Player := at_rest 100 400 false.

(** One floor block under the body, and a two-step stair. *)
Definition one_block : list Block := [mkBlock 100 560].
Definition stair : list Block := [mkBlock 0 560; mkBlock 40 540].

(** ** The frame loop of [main]

    [main] creates the body at the spawn pose [{100, 400, 0, 0, false}]
    and, once per frame, reads the keyboard and calls [update_player].
    [run] is the body after the frames whose keyboard snapshots are
    [inputs], over a layout; [play] is the game itself, on [level] from
    the spawn pose.  Window, renderer and frame pacing do not act on the
    body. *)

Fixpoint run (lvl : list Block) (inputs : list keystate) (p : Player)
  : Player :=
  match inputs with
  | [] => p
  | keys :: rest => run lvl rest (step lvl p keys)
  end.

Definition play (inputs : list keystate) : Player := run level inputs spawn.

(** The test of line 116 on a horizontal position. *)
Definition in_world_x (v : float) : bool :=
  F32.ge v (F32.of_int 0)
  && F32.le v (F32.of_int (I32.sub WINDOW_WIDTH PLAYER_SIZE)).

(** ** The step in exact arithmetic

    A reference model to compare [step] with: the same step computed on
    integers, with [x] and [vx] in pixels and [y] and [vy] in half
    pixels, so that gravity is 1, the jump impulse -24, a block of top
    [by] spans [2 * by .. 2 * (by + 40)] and the body is 40 high. *)

Module Exact.

Record body : Type := mk {
  px : Z;
  hy : Z;
  pvx : Z;
  hvy : Z;
  gr : bool
}.

Definition overlaps (ax ahy : Z) (b : Block) : bool :=
  (ax <? bx b + 40) && (bx b <? ax + 20)
  && (ahy <? 2 * (by_ b + 40)) && (2 * by_ b <? ahy + 40).

Definition apply_input (s : body) (keys : keystate) : body :=
  mk (px s) (hy s)
     (if right_held keys then 5 else if left_held keys then -5 else 0)
     ((if jump_held keys && gr s then -24 else hvy s) + 1)
     (if jump_held keys && gr s then false else gr s).

Definition move_x (lvl : list Block) (s : body) : body :=
  let nx := px s + pvx s in
  if negb (existsb (overlaps nx (hy s)) lvl) && (0 <=? nx) && (nx <=? 780)
  then mk nx (hy s) (pvx s) (hvy s) (gr s)
  else s.

Definition move_y (lvl : list Block) (s : body) : body :=
  let ny := hy s + hvy s in
  match find (overlaps (px s) ny) lvl with
  | Some b =>
      if 0 <? hvy s
      then mk (px s) (2 * (by_ b - 20)) (pvx s) 0 true
      else mk (px s) (2 * (by_ b + 40)) (pvx s) 0 false
  | None => mk (px s) ny (pvx s) (hvy s) false
  end.

Definition keep_in_bounds (s : body) : body :=
  if 1200 <? hy s then mk 100 800 (pvx s) 0 (gr s) else s.

Definition step (lvl : list Block) (s : body) (keys : keystate) : body :=
  keep_in_bounds (move_y lvl (move_x lvl (apply_input s keys))).

Fixpoint run (lvl : list Block) (inputs : list keystate) (s : body) : body :=
  match inputs with
  | [] => s
  | keys :: rest => run lvl rest (step lvl s keys)
  end.

Definition spawn : body := mk 100 800 0 0 false.

(** The binary32 body that an exact body stands for. *)
Definition embed (s : body) : Player :=
  mkPlayer (F32.of_int (px s)) (F32.lit (hy s) (-1))
           (F32.of_int (pvx s)) (F32.lit (hvy s) (-1)) (gr s).

(** All coordinates of the blocks are small. *)
Definition small_blocks (lvl : list Block) : Prop :=
  forall b, In b lvl -> Z.abs (bx b) <= 2 ^ 20 /\ Z.abs (by_ b) <= 2 ^ 20.

(** All coordinates and velocities of the body are small. *)
Definition small (s : body) : Prop :=
  Z.abs (px s) <= 2 ^ 20 /\ Z.abs (hy s) <= 2 ^ 20 /\
  Z.abs (pvx s) <= 2 ^ 20 /\ Z.abs (hvy s) <= 2 ^ 20.

(** The body overlaps no block. *)
Definition clear (lvl : list Block) (s : body) : bool :=
  negb (existsb (overlaps (px s) (hy s)) lvl).

(** What holds of the game's body between frames: it is inside the
    window horizontally and not below the top of the floor, it rises no
    faster than a fresh jump, its energy [vy^2 + vy - 2 y] (in half
    pixels) is at most that of a jump from the highest platform, a
    grounded body is at rest on a block, and it overlaps no block. *)
Definition game_inv (s : body) : Prop :=
  0 <= px s <= 780
  /\ -5 <= pvx s <= 5
  /\ hy s <= 1080
  /\ -23 <= hvy s
  /\ hvy s * hvy s + hvy s + 328 <= 2 * hy s
  /\ (gr s = true -> hvy s = 0 /\ 440 <= hy s)
  /\ clear level s = true.

(** A grounded body stands on a block: its feet are at the block's top
    and it overlaps the block horizontally. *)
Definition standing (lvl : list Block) (s : body) : Prop :=
  gr s = true ->
  exists b, In b lvl /\ hy s = 2 * (by_ b - 20)
            /\ px s < bx b + 40 /\ bx b < px s + 20.

End Exact.

(** The binary32 number [(-1)^s * p * 2^e0] for a mantissa [p] of at most
    24 bits. *)
Definition normE (s : bool) (p : positive) (e0 : Z) : float :=
  S754_finite s (F32.shift p (Z.to_nat (24 - F32.size p)))
              (F32.size p - 24 + e0).

(** ** The rectangle drawn for the body

    Line 242 of [main] converts the position to [int]: the value is
    truncated toward zero, and the conversion is undefined, here [None],
    for a NaN, an infinity or a value outside the range of [int]. *)

Definition to_int (a : float) : option Z :=
  match a with
  | S754_zero _ => Some 0
  | S754_finite s m e =>
      let v := if 0 <=? e then Zpos m * 2 ^ e else Zpos m / 2 ^ (- e) in
      let z := if s then - v else v in
      if (-2147483648 <=? z) && (z <=? 2147483647) then Some z else None
  | _ => None
  end.

Record SDL_Rect : Type := mkRect { rx : Z; ry : Z; rw : Z; rh : Z }.

Definition player_rect (p : Player) : option SDL_Rect :=
  match to_int (x p), to_int (y p) with
  | Some a, Some b => Some (mkRect a b PLAYER_SIZE PLAYER_SIZE)
  | _, _ => None
  end.

(** ** Facts about binary32 comparison and addition *)

Module F32Facts.

Lemma compare_antisym (a b : float) :
  SFcompare b a = option_map CompOpp (SFcompare a b).
Proof.
  destruct a as [sa|sa| |sa ma ea], b as [sb|sb| |sb mb eb];
    try reflexivity;
    try (destruct sa; reflexivity); try (destruct sb; reflexivity);
    try (destruct sa, sb; reflexivity).
  cbn [SFcompare option_map].
  rewrite (Z.compare_antisym ea eb).
  change (Pos.compare_cont Eq mb ma)
    with (Pos.compare_cont (CompOpp Eq) mb ma).
  rewrite <- (Pos.compare_cont_antisym ma mb Eq).
  destruct sa, sb; try reflexivity;
    destruct (ea ?= eb); try reflexivity;
    destruct (Pos.compare_cont Eq ma mb); reflexivity.
Qed.

Lemma ltb_spec (a b : float) : F32.lt a b = true <-> F32.Less a b.
Proof.
  unfold F32.lt, SFltb, F32.Less.
  destruct (SFcompare a b) as [[]|]; split; congruence.
Qed.

Lemma gtb_spec (a b : float) : F32.gt a b = true <-> F32.Less b a.
Proof. apply ltb_spec. Qed.

Lemma leb_spec (a b : float) : F32.le a b = true <-> F32.LessEq a b.
Proof.
  unfold F32.le, SFleb, F32.LessEq, F32.Less, F32.Same.
  destruct (SFcompare a b) as [[]|]; split; intros H;
    try discriminate; auto; destruct H; congruence.
Qed.

Lemma geb_spec (a b : float) : F32.ge a b = true <-> F32.LessEq b a.
Proof. apply leb_spec. Qed.

Lemma Same_not_lt (a b : float) : F32.Same a b -> F32.lt a b = false.
Proof. unfold F32.Same, F32.lt, SFltb. intros ->. reflexivity. Qed.

Lemma Same_not_gt (a b : float) : F32.Same a b -> F32.gt a b = false.
Proof.
  unfold F32.Same, F32.gt, SFltb. intros H.
  rewrite compare_antisym, H. reflexivity.
Qed.

Lemma le_not_gt (a b : float) : F32.le a b = true -> F32.gt a b = false.
Proof.
  unfold F32.le, F32.gt, SFleb, SFltb. rewrite (compare_antisym a b).
  destruct (SFcompare a b) as [[]|]; simpl; congruence.
Qed.

Lemma gt_not_le (a b : float) : F32.gt a b = true -> F32.le a b = false.
Proof.
  intros H. destruct (F32.le a b) eqn:E; [|reflexivity].
  apply le_not_gt in E. congruence.
Qed.

Lemma add_nan_r (a : float) : F32.add a S754_nan = S754_nan.
Proof. destruct a; reflexivity. Qed.

Lemma lt_nan_l (b : float) : F32.lt S754_nan b = false.
Proof. reflexivity. Qed.

Lemma compare_total (a b : float) :
  F32.is_nan a = false -> F32.is_nan b = false ->
  exists c, SFcompare a b = Some c.
Proof.
  destruct a, b; simpl; try discriminate; intros _ _; eexists; reflexivity.
Qed.

(** A comparison either holds one way or the other, unless an operand
    is a NaN. *)
Lemma not_gt_le (a b : float) :
  F32.is_nan a = false -> F32.is_nan b = false ->
  F32.gt a b = false -> F32.le a b = true.
Proof.
  intros Ha Hb. destruct (compare_total a b Ha Hb) as [c Hc].
  unfold F32.gt, F32.le, SFltb, SFleb.
  rewrite (compare_antisym a b), Hc. destruct c; simpl; congruence.
Qed.

End F32Facts.

(** ** Integers of fewer than 25 bits are exact in binary32

    Conversion from [int], addition and comparison are exact on integers
    of absolute value below [2^24]. *)

Module F32Exact.

Import F32.

Lemma size_pos p : 1 <= size p.
Proof. unfold size. lia. Qed.

Lemma size_shift p n : size (shift p n) = size p + Z.of_nat n.
Proof.
  unfold size, shift. induction n as [|n IH].
  - simpl. lia.
  - rewrite Nat2Z.inj_succ.
    change (Nat.iter (S n) xO p) with (xO (Nat.iter n xO p)).
    cbn [digits2_pos]. rewrite Pos2Z.inj_succ, IH. lia.
Qed.

Lemma shift_shift p n m : shift (shift p n) m = shift p (n + m).
Proof. unfold shift. rewrite Nat.add_comm. symmetry. apply Nat.iter_add. Qed.

Lemma Zpos_shift p n : Zpos (shift p n) = Zpos p * 2 ^ Z.of_nat n.
Proof.
  unfold shift. induction n as [|n IH].
  - simpl. lia.
  - rewrite Nat2Z.inj_succ, Z.pow_succ_r by lia.
    change (Nat.iter (S n) xO p) with (xO (Nat.iter n xO p)).
    rewrite Pos2Z.inj_xO, IH. lia.
Qed.

Lemma size_bounds p : 2 ^ (size p - 1) <= Zpos p < 2 ^ size p.
Proof.
  unfold size. induction p as [p IH|p IH|]; cbn [digits2_pos];
    [rewrite Pos2Z.inj_succ, (Pos2Z.inj_xI p)
    |rewrite Pos2Z.inj_succ, (Pos2Z.inj_xO p)
    |simpl; lia];
    set (d := Zpos (digits2_pos p)) in *;
    assert (1 <= d) by (unfold d; lia);
    replace (Z.succ d - 1) with (Z.succ (d - 1)) by lia;
    rewrite !Z.pow_succ_r by lia; lia.
Qed.

Lemma size_le_24 p : Zpos p < 2 ^ 24 -> size p <= 24.
Proof.
  intros H. destruct (Z_le_gt_dec (size p) 24) as [L|G]; [exact L|].
  pose proof (size_bounds p) as [Hlo _].
  assert (2 ^ 24 <= 2 ^ (size p - 1)) by (apply Z.pow_le_mono_r; lia).
  lia.
Qed.

Lemma iter_pos_nat {A} (f : A -> A) (n : positive) (a : A) :
  iter_pos f n a = Nat.iter (Pos.to_nat n) f a.
Proof.
  revert a. induction n as [n IH|n IH|]; intros a; cbn [iter_pos].
  - rewrite !IH, Pos2Nat.inj_xI.
    replace (S (2 * Pos.to_nat n))%nat with (Pos.to_nat n + (Pos.to_nat n + 1))%nat by lia.
    rewrite !Nat.iter_add. reflexivity.
  - rewrite !IH, Pos2Nat.inj_xO.
    replace (2 * Pos.to_nat n)%nat with (Pos.to_nat n + Pos.to_nat n)%nat by lia.
    rewrite Nat.iter_add. reflexivity.
  - reflexivity.
Qed.

Lemma pos_iter_shift p d : Pos.iter xO p d = shift p (Pos.to_nat d).
Proof. unfold shift. rewrite Pos2Nat.inj_iter. reflexivity. Qed.

Lemma shr_1_exact (q : positive) (n : nat) :
  Nat.iter n shr_1 (Build_shr_record (Zpos (shift q n)) false false)
  = Build_shr_record (Zpos q) false false.
Proof.
  revert q. induction n as [|n IH]; intros q; [reflexivity|].
  rewrite Nat.iter_succ_r.
  change (shift q (S n)) with (xO (shift q n)).
  cbn [shr_1 orb]. apply IH.
Qed.

Lemma fexp_small e : -125 <= e -> fexp 24 128 e = e - 24.
Proof. unfold fexp, emin. lia. Qed.

Lemma shr_zero mrs e : shr mrs e 0 = (mrs, e).
Proof. reflexivity. Qed.

Lemma shr_exact (q : positive) (e : Z) (n : nat) :
  shr (Build_shr_record (Zpos (shift q n)) false false) e (Z.of_nat n)
  = (Build_shr_record (Zpos q) false false, e + Z.of_nat n).
Proof.
  destruct n as [|n].
  - simpl. f_equal. lia.
  - unfold shr. destruct (Z.of_nat (S n)) as [|k|k] eqn:E; try lia.
    rewrite iter_pos_nat. replace (Pos.to_nat k) with (S n) by lia.
    now rewrite shr_1_exact.
Qed.

(** Rounding a mantissa of 24 bits returns it. *)
Lemma round_aux_canonical (s : bool) (m : positive) (e : Z) :
  size m = 24 -> -125 <= 24 + e -> e <= 104 ->
  binary_round_aux 24 128 s (Zpos m) e loc_Exact = S754_finite s m e.
Proof.
  intros Hs Hlo Hhi. unfold binary_round_aux, shr_fexp.
  cbn [Zdigits2 shr_record_of_loc]. fold (size m). rewrite Hs.
  rewrite fexp_small by lia.
  replace (24 + e - 24 - e) with 0 by lia. rewrite shr_zero.
  cbn [shr_m loc_of_shr_record round_nearest_even Zdigits2 shr_record_of_loc].
  fold (size m). rewrite Hs, fexp_small by lia.
  replace (24 + e - 24 - e) with 0 by lia. rewrite shr_zero.
  cbn [shr_m].
  replace (e <=? 128 - 24) with true by (symmetry; apply Z.leb_le; lia).
  reflexivity.
Qed.

Lemma shr_fexp_canonical (m : positive) (e : Z) :
  size m = 24 -> -125 <= 24 + e ->
  shr_fexp 24 128 (Zpos m) e loc_Exact
  = (Build_shr_record (Zpos m) false false, e).
Proof.
  intros Hs Hlo. unfold shr_fexp. cbn [Zdigits2 shr_record_of_loc].
  fold (size m). rewrite Hs, fexp_small by lia.
  replace (24 + e - 24 - e) with 0 by lia. apply shr_zero.
Qed.

Lemma round_aux_shr (s : bool) (mx mx' : Z) (ex ex' : Z) (lx lx' : location) :
  shr_fexp 24 128 mx ex lx = shr_fexp 24 128 mx' ex' lx' ->
  binary_round_aux 24 128 s mx ex lx = binary_round_aux 24 128 s mx' ex' lx'.
Proof. unfold binary_round_aux. intros ->. reflexivity. Qed.

Lemma round_shifted (s : bool) (p : positive) (k : nat) :
  size p <= 24 ->
  binary_round 24 128 s (shift p k) (- Z.of_nat k) = norm s p.
Proof.
  intros Hp. pose proof (size_pos p) as Hp1.
  unfold binary_round, norm. fold (size (shift p k)).
  rewrite size_shift.
  replace (size p + Z.of_nat k + - Z.of_nat k) with (size p) by lia.
  rewrite fexp_small by lia.
  set (d := Z.to_nat (24 - size p)).
  assert (Hd : Z.of_nat d = 24 - size p) by (unfold d; lia).
  assert (Hsz : size (shift p d) = 24) by (rewrite size_shift; lia).
  unfold shl_align.
  destruct (size p - 24 - - Z.of_nat k) as [|j|j] eqn:E.
  - (* already aligned *)
    replace k with d by lia. replace (- Z.of_nat d) with (size p - 24) by lia.
    apply round_aux_canonical; lia.
  - (* too many bits: shift right *)
    assert (Hk : k = (d + Pos.to_nat j)%nat) by lia.
    rewrite <- (round_aux_canonical s (shift p d) (size p - 24)) by lia.
    apply round_aux_shr.
    rewrite (shr_fexp_canonical (shift p d)) by lia.
    unfold shr_fexp. cbn [Zdigits2 shr_record_of_loc].
    fold (size (shift p k)). rewrite size_shift.
    replace (size p + Z.of_nat k + - Z.of_nat k) with (size p) by lia.
    rewrite fexp_small by lia.
    replace (size p - 24 - - Z.of_nat k) with (Z.of_nat (Pos.to_nat j)) by lia.
    rewrite Hk at 1. rewrite <- shift_shift, shr_exact.
    f_equal. lia.
  - (* too few bits: shift left *)
    rewrite pos_iter_shift, shift_shift.
    replace (k + Pos.to_nat j)%nat with d by lia.
    apply round_aux_canonical; lia.
Qed.

Lemma of_int_pos (p : positive) :
  size p <= 24 -> of_int (Zpos p) = norm false p.
Proof. intros H. apply (round_shifted false p 0 H). Qed.

Lemma of_int_neg (p : positive) :
  size p <= 24 -> of_int (Zneg p) = norm true p.
Proof. intros H. apply (round_shifted true p 0 H). Qed.

Lemma normalize_shifted (z : Z) (k : nat) :
  Z.abs z < 2 ^ 24 ->
  binary_normalize 24 128 (z * 2 ^ Z.of_nat k) (- Z.of_nat k) false = of_int z.
Proof.
  intros Hz. destruct z as [|p|p].
  - reflexivity.
  - rewrite <- Zpos_shift. cbn [binary_normalize].
    rewrite round_shifted by (apply size_le_24; lia).
    symmetry. apply of_int_pos, size_le_24. lia.
  - change (Zneg p) with (- Zpos p) at 1.
    rewrite Z.mul_opp_l, <- Zpos_shift. cbn [Z.opp binary_normalize].
    rewrite round_shifted by (apply size_le_24; lia).
    symmetry. apply of_int_neg, size_le_24. lia.
Qed.

Lemma shl_align_down (m : positive) (e e' : Z) :
  e' <= e -> fst (shl_align m e e') = shift m (Z.to_nat (e - e')).
Proof.
  intros H. unfold shl_align. destruct (e' - e) as [|j|j] eqn:E; try lia.
  - replace (e - e') with 0 by lia. reflexivity.
  - cbn [fst]. rewrite pos_iter_shift. f_equal. lia.
Qed.

Lemma add_norm (s1 s2 : bool) (p1 p2 : positive) :
  size p1 <= 24 -> size p2 <= 24 ->
  Z.abs (signed s1 p1 + signed s2 p2) < 2 ^ 24 ->
  SFadd 24 128 (norm s1 p1) (norm s2 p2) = of_int (signed s1 p1 + signed s2 p2).
Proof.
  intros H1 H2 Hsum.
  pose proof (size_pos p1). pose proof (size_pos p2).
  unfold norm. cbn [SFadd].
  set (e1 := size p1 - 24). set (e2 := size p2 - 24).
  set (K := Z.to_nat (- Z.min e1 e2)).
  assert (HK : Z.min e1 e2 = - Z.of_nat K) by (unfold K, e1, e2; lia).
  rewrite !shl_align_down, !shift_shift by lia.
  replace (Z.to_nat (24 - size p1) + Z.to_nat (e1 - Z.min e1 e2))%nat
    with K by (unfold K, e1, e2; lia).
  replace (Z.to_nat (24 - size p2) + Z.to_nat (e2 - Z.min e1 e2))%nat
    with K by (unfold K, e1, e2; lia).
  rewrite HK, <- (normalize_shifted _ K Hsum). f_equal.
  rewrite !Zpos_shift. unfold signed, cond_Zopp. destruct s1, s2; lia.
Qed.

Lemma of_int_signed (s : bool) (p : positive) :
  size p <= 24 -> of_int (signed s p) = norm s p.
Proof.
  intros H. destruct s; [apply of_int_neg|apply of_int_pos]; exact H.
Qed.

Lemma add_of_int (a b : Z) :
  Z.abs a < 2 ^ 24 -> Z.abs b < 2 ^ 24 -> Z.abs (a + b) < 2 ^ 24 ->
  F32.add (F32.of_int a) (F32.of_int b) = F32.of_int (a + b).
Proof.
  intros Ha Hb Hab.
  assert (Hn : forall s p, Z.abs (signed s p) < 2 ^ 24 -> size p <= 24).
  { intros s p H. apply size_le_24. destruct s; simpl in H; lia. }
  assert (Hz : forall z, z = 0 \/ exists s p, z = signed s p).
  { intros [|p|p]; [now left|right; now exists false, p
                   |right; now exists true, p]. }
  destruct (Hz a) as [->|(s1 & p1 & ->)], (Hz b) as [->|(s2 & p2 & ->)].
  - reflexivity.
  - rewrite Z.add_0_l, of_int_signed by eauto. reflexivity.
  - rewrite Z.add_0_r, of_int_signed by eauto. reflexivity.
  - rewrite !of_int_signed by eauto. apply add_norm; eauto.
Qed.

Lemma compare_shift (p q : positive) (n : nat) :
  Pos.compare_cont Eq (shift p n) (shift q n) = (p ?= q)%positive.
Proof.
  induction n as [|n IH]; [reflexivity|].
  change (shift p (S n)) with (xO (shift p n)).
  change (shift q (S n)) with (xO (shift q n)).
  exact IH.
Qed.

Lemma size_lt_lt (p q : positive) : size p < size q -> (p < q)%positive.
Proof.
  intros H. pose proof (size_bounds p) as [_ Hp].
  pose proof (size_bounds q) as [Hq _]. pose proof (size_pos p).
  assert (2 ^ size p <= 2 ^ (size q - 1)) by (apply Z.pow_le_mono_r; lia).
  lia.
Qed.

Lemma compare_magnitude (p q : positive) :
  match size p - 24 ?= size q - 24 with
  | Lt => Lt
  | Gt => Gt
  | Eq => Pos.compare_cont Eq (shift p (Z.to_nat (24 - size p)))
                              (shift q (Z.to_nat (24 - size q)))
  end = (p ?= q)%positive.
Proof.
  destruct (Z.compare_spec (size p - 24) (size q - 24)) as [E|L|G].
  - replace (size q) with (size p) by lia. apply compare_shift.
  - symmetry. apply Pos.compare_lt_iff, size_lt_lt. lia.
  - symmetry. apply Pos.compare_gt_iff, size_lt_lt. lia.
Qed.

Lemma compare_norm (s1 s2 : bool) (p1 p2 : positive) :
  SFcompare (norm s1 p1) (norm s2 p2)
  = Some (signed s1 p1 ?= signed s2 p2).
Proof.
  unfold norm. cbn [SFcompare].
  pose proof (compare_magnitude p1 p2) as H.
  destruct s1, s2; cbn [signed cond_Zopp Z.opp Z.compare]; try reflexivity.
  - rewrite <- H. destruct (size p1 - 24 ?= size p2 - 24); reflexivity.
  - rewrite <- H. reflexivity.
Qed.

Lemma compare_of_int (a b : Z) :
  Z.abs a < 2 ^ 24 -> Z.abs b < 2 ^ 24 ->
  SFcompare (F32.of_int a) (F32.of_int b) = Some (a ?= b).
Proof.
  intros Ha Hb.
  assert (Hn : forall s p, Z.abs (signed s p) < 2 ^ 24 -> size p <= 24).
  { intros s p H. apply size_le_24. destruct s; simpl in H; lia. }
  assert (Hz : forall z, z = 0 \/ exists s p, z = signed s p).
  { intros [|p|p]; [now left|right; now exists false, p
                   |right; now exists true, p]. }
  destruct (Hz a) as [->|(s1 & p1 & ->)], (Hz b) as [->|(s2 & p2 & ->)].
  - reflexivity.
  - rewrite of_int_signed by eauto. destruct s2; reflexivity.
  - rewrite of_int_signed by eauto. destruct s1; reflexivity.
  - rewrite !of_int_signed by eauto. apply compare_norm.
Qed.

End F32Exact.

Lemma wrap_small (z : Z) :
  -2147483648 <= z < 2147483648 -> I32.wrap z = z.
Proof.
  intros H. unfold I32.wrap. rewrite Z.mod_small by lia. lia.
Qed.

Lemma lt_of_int (a c : Z) :
  Z.abs a < 2 ^ 24 -> Z.abs c < 2 ^ 24 ->
  F32.lt (F32.of_int a) (F32.of_int c) = (a <? c).
Proof.
  intros Ha Hc. unfold F32.lt, SFltb.
  rewrite (F32Exact.compare_of_int a c Ha Hc). unfold Z.ltb.
  destruct (a ?= c); reflexivity.
Qed.

(** On integer positions of moderate size the predicate is the overlap
    test of the two squares in exact integer arithmetic. *)
Lemma check_collision_int (a b bx by_ : Z) :
  Z.abs a <= 2 ^ 23 -> Z.abs b <= 2 ^ 23 ->
  Z.abs bx <= 2 ^ 23 -> Z.abs by_ <= 2 ^ 23 ->
  check_collision (F32.of_int a) (F32.of_int b) bx by_
  = (a <? bx + BLOCK_SIZE) && (bx <? a + PLAYER_SIZE)
    && (b <? by_ + BLOCK_SIZE) && (by_ <? b + PLAYER_SIZE).
Proof.
  intros Ha Hb Hbx Hby.
  assert (H23 : 2 ^ 23 = 8388608) by reflexivity.
  assert (H24 : 2 ^ 24 = 16777216) by reflexivity.
  unfold check_collision, I32.add, F32.gt, BLOCK_SIZE, PLAYER_SIZE.
  rewrite !wrap_small by lia.
  rewrite !F32Exact.add_of_int by lia.
  rewrite !lt_of_int by lia. reflexivity.
Qed.

Import F32Facts.

(** ** The two scans *)

Section Scans.

Variable lvl : list Block.

(** The horizontal loop computes "some block is hit". *)
Lemma scan_x_existsb (new_x py : float) :
  scan_x lvl new_x py = existsb (hits new_x py) lvl.
Proof.
  induction lvl as [|b rest IH]; simpl; [reflexivity|].
  unfold hits at 1. destruct (check_collision _ _ _ _); simpl; auto.
Qed.

Lemma scan_x_true (new_x py : float) :
  scan_x lvl new_x py = true <->
  exists b, In b lvl /\ hits new_x py b = true.
Proof. rewrite scan_x_existsb. apply existsb_exists. Qed.

Lemma scan_x_false (new_x py : float) :
  scan_x lvl new_x py = false <-> clear_of lvl new_x py.
Proof.
  unfold clear_of. rewrite scan_x_existsb. split.
  - intros H b Hb. destruct (hits new_x py b) eqn:E; [|reflexivity].
    assert (existsb (hits new_x py) lvl = true)
      by (apply existsb_exists; eauto).
    congruence.
  - intros H. destruct (existsb _ _) eqn:E; [|reflexivity].
    apply existsb_exists in E. destruct E as (b & Hb & Hh).
    rewrite (H b Hb) in Hh. discriminate.
Qed.

End Scans.

Lemma scan_y_miss (lvl : list Block) (new_y : float) (p : Player) :
  (forall b, In b lvl -> hits (x p) new_y b = false) ->
  scan_y lvl new_y p = (p, false).
Proof.
  induction lvl as [|b rest IH]; simpl; intros H; [reflexivity|].
  pose proof (H b (or_introl eq_refl)) as Hb. unfold hits in Hb.
  rewrite Hb. apply IH. intros b' Hb'. apply H. now right.
Qed.

Lemma scan_y_first (pre post : list Block) (b : Block)
      (new_y : float) (p : Player) :
  (forall b', In b' pre -> hits (x p) new_y b' = false) ->
  hits (x p) new_y b = true ->
  scan_y (pre ++ b :: post) new_y p =
  (if F32.gt (vy p) (F32.of_int 0) then land_on p b else bonk_under p b, true).
Proof.
  induction pre as [|c pre IH]; simpl; intros Hpre Hb.
  - unfold hits in Hb. rewrite Hb.
    destruct (F32.gt (vy p) _); reflexivity.
  - pose proof (Hpre c (or_introl eq_refl)) as Hc. unfold hits in Hc.
    rewrite Hc. apply IH; [|exact Hb].
    intros b' Hb'. apply Hpre. now right.
Qed.

(** The list either has a first block that is hit, or none at all. *)
Lemma first_hit_or_clear (lvl : list Block) (px py : float) :
  (exists b, first_hit lvl px py b) \/ clear_of lvl px py.
Proof.
  induction lvl as [|c rest IH].
  - right. intros b [].
  - destruct (hits px py c) eqn:Hc.
    + left. exists c, [], rest. repeat split; [intros b' []|exact Hc].
    + destruct IH as [(b & pre & post & -> & Hpre & Hb)|Hnone].
      * left. exists b, (c :: pre), post. repeat split; [|exact Hb].
        intros b' [<-|Hb']; auto.
      * right. intros b [<-|Hb]; auto.
Qed.

(** A block can only be hit at a candidate height that is a number, so
    the vertical velocity that produced it is a number too. *)
Lemma hit_vy_number (px py v : float) (b : Block) :
  hits px (F32.add py v) b = true -> F32.is_nan v = false.
Proof.
  destruct v; try reflexivity.
  rewrite add_nan_r. unfold hits, check_collision.
  rewrite lt_nan_l, andb_false_r. discriminate.
Qed.

(** ** Frame lemmas: what each phase leaves alone *)

Lemma apply_input_pos (p : Player) (keys : keystate) :
  x (apply_input p keys) = x p /\ y (apply_input p keys) = y p.
Proof.
  destruct p as [px py pvx pvy [|]]; unfold apply_input;
    destruct (left_held keys), (right_held keys), (jump_held keys);
    split; reflexivity.
Qed.

(** The input phase in closed form. *)
Lemma apply_input_eq (p : Player) (keys : keystate) :
  apply_input p keys =
  mkPlayer (x p) (y p)
           (if right_held keys then MOVE_SPEED
            else if left_held keys then F32.neg MOVE_SPEED
            else F32.of_int 0)
           (F32.add (if jump_held keys && on_ground p then JUMP_STRENGTH
                     else vy p) GRAVITY)
           (if jump_held keys && on_ground p then false else on_ground p).
Proof.
  destruct p as [px py pvx pvy [|]]; unfold apply_input;
    destruct (left_held keys), (right_held keys), (jump_held keys);
    reflexivity.
Qed.

Lemma move_x_frame (lvl : list Block) (p : Player) :
  y (move_x lvl p) = y p /\ vx (move_x lvl p) = vx p /\
  vy (move_x lvl p) = vy p /\ on_ground (move_x lvl p) = on_ground p.
Proof.
  unfold move_x. destruct (_ && _); repeat split; reflexivity.
Qed.

Lemma scan_y_frame (lvl : list Block) (new_y : float) (p : Player) :
  x (fst (scan_y lvl new_y p)) = x p /\ vx (fst (scan_y lvl new_y p)) = vx p.
Proof.
  induction lvl as [|b rest IH]; simpl; [split; reflexivity|].
  destruct (check_collision _ _ _ _); [|exact IH].
  destruct (F32.gt _ _); split; reflexivity.
Qed.

Lemma move_y_frame (lvl : list Block) (p : Player) :
  x (move_y lvl p) = x p /\ vx (move_y lvl p) = vx p.
Proof.
  unfold move_y.
  pose proof (scan_y_frame lvl (F32.add (y p) (vy p)) (set_on_ground p false))
    as [Hx Hvx].
  destruct (scan_y _ _ _) as [q c]. simpl in Hx, Hvx.
  destruct c; simpl; split; assumption.
Qed.

Lemma keep_in_bounds_frame (p : Player) :
  vx (keep_in_bounds p) = vx p /\ on_ground (keep_in_bounds p) = on_ground p.
Proof.
  unfold keep_in_bounds. destruct (F32.gt _ _); split; reflexivity.
Qed.

Lemma step_vx (lvl : list Block) (p : Player) (keys : keystate) :
  vx (step lvl p keys) = vx (apply_input p keys).
Proof.
  unfold step.
  rewrite (proj1 (keep_in_bounds_frame _)), (proj2 (move_y_frame _ _)).
  apply move_x_frame.
Qed.

(** ** The collision predicate *)

(** C3.  [check_collision] is true exactly when the four strict
    comparisons of the two boxes hold: [px < bx + BLOCK_SIZE],
    [px + PLAYER_SIZE > bx], [py < by + BLOCK_SIZE] and
    [py + PLAYER_SIZE > by].  Boxes whose edges touch, on any of the four
    sides, do not overlap.  On integer coordinates of absolute value up
    to [2^23] the comparisons are those of exact integer arithmetic. *)
Theorem check_collision_strict (px py : float) (bx by_ : Z) :
  (check_collision px py bx by_ = true <->
   F32.Less px (F32.of_int (I32.add bx BLOCK_SIZE)) /\
   F32.Less (F32.of_int bx) (F32.add px (F32.of_int PLAYER_SIZE)) /\
   F32.Less py (F32.of_int (I32.add by_ BLOCK_SIZE)) /\
   F32.Less (F32.of_int by_) (F32.add py (F32.of_int PLAYER_SIZE)))
  /\ (F32.Same px (F32.of_int (I32.add bx BLOCK_SIZE)) ->
      check_collision px py bx by_ = false)
  /\ (F32.Same (F32.add px (F32.of_int PLAYER_SIZE)) (F32.of_int bx) ->
      check_collision px py bx by_ = false)
  /\ (F32.Same py (F32.of_int (I32.add by_ BLOCK_SIZE)) ->
      check_collision px py bx by_ = false)
  /\ (F32.Same (F32.add py (F32.of_int PLAYER_SIZE)) (F32.of_int by_) ->
      check_collision px py bx by_ = false)
  /\ (forall a b : Z,
         Z.abs a <= 2 ^ 23 -> Z.abs b <= 2 ^ 23 ->
         Z.abs bx <= 2 ^ 23 -> Z.abs by_ <= 2 ^ 23 ->
         px = F32.of_int a -> py = F32.of_int b ->
         (check_collision px py bx by_ = true <->
          a < bx + BLOCK_SIZE /\ a + PLAYER_SIZE > bx /\
          b < by_ + BLOCK_SIZE /\ b + PLAYER_SIZE > by_)).
Proof.
  split; [|split; [|split; [|split; [|split]]]];
    [| | | | |intros a b Ha Hb Hbx Hby -> ->;
              rewrite check_collision_int by assumption;
              rewrite !andb_true_iff, !Z.ltb_lt; lia];
    unfold check_collision.
  - rewrite !andb_true_iff, <- !ltb_spec. unfold F32.gt. tauto.
  - intros H. now rewrite (Same_not_lt _ _ H).
  - intros H. now rewrite (Same_not_gt _ _ H), andb_false_r.
  - intros H. now rewrite (Same_not_lt _ _ H), andb_false_r.
  - intros H. now rewrite (Same_not_gt _ _ H), andb_false_r.
Qed.

(** The body standing on a block (540 + 20 = 560) does not overlap it,
    nor does a body flush against any other face; half a pixel lower, or
    a whole pixel lower, it does overlap. *)
Lemma check_collision_strict_witness :
  check_collision (F32.of_int 100) (F32.of_int 540) 100 560 = false /\
  check_collision (F32.of_int 100) (F32.of_int 600) 100 560 = false /\
  check_collision (F32.of_int 80) (F32.of_int 560) 100 560 = false /\
  check_collision (F32.of_int 140) (F32.of_int 560) 100 560 = false /\
  check_collision (F32.of_int 100) (F32.lit 1081 (-1)) 100 560 = true /\
  check_collision (F32.of_int 100) (F32.of_int 541) 100 560 = true.
Proof.
  split; [|split; [|split; [|split; [|split]]]].
  - destruct (check_collision_strict (F32.of_int 100) (F32.of_int 540) 100 560)
      as (_ & _ & _ & _ & H & _).
    apply H. reflexivity.
  - destruct (check_collision_strict (F32.of_int 100) (F32.of_int 600) 100 560)
      as (_ & _ & _ & H & _ & _).
    apply H. reflexivity.
  - destruct (check_collision_strict (F32.of_int 80) (F32.of_int 560) 100 560)
      as (_ & _ & H & _ & _ & _).
    apply H. reflexivity.
  - destruct (check_collision_strict (F32.of_int 140) (F32.of_int 560) 100 560)
      as (_ & H & _ & _ & _ & _).
    apply H. reflexivity.
  - destruct (check_collision_strict (F32.of_int 100) (F32.lit 1081 (-1))
                                     100 560) as (H & _).
    apply H. unfold F32.Less. split; [|split; [|split]]; reflexivity.
  - destruct (check_collision_strict (F32.of_int 100) (F32.of_int 541) 100 560)
      as (_ & _ & _ & _ & _ & H).
    apply (H 100 541); try reflexivity;
      unfold BLOCK_SIZE, PLAYER_SIZE; simpl; lia.
Defined.

(** ** Input interpretation *)

(** C4.  The horizontal velocity at the end of the step depends on the
    keys alone: [MOVE_SPEED] when right is held, [-MOVE_SPEED] when left
    is held and right is not, zero when neither is held.  The previous
    velocity, the position and the layout play no part. *)
Theorem vx_recomputed (lvl : list Block) (p : Player) (keys : keystate) :
  vx (apply_input p keys) =
    (if right_held keys then MOVE_SPEED
     else if left_held keys then F32.neg MOVE_SPEED
     else F32.of_int 0)
  /\ vx (step lvl p keys) = vx (apply_input p keys).
Proof.
  split; [|apply step_vx].
  rewrite apply_input_eq. reflexivity.
Qed.

(** C5.  The jump impulse fires exactly when a jump key is held and the
    body was grounded when the step began; it sets the vertical velocity
    to [JUMP_STRENGTH] and clears [on_ground].  Gravity is then added in
    every case, so with [on_ground = false] the velocity changes by the
    gravity addition only.  The horizontal phase leaves this velocity
    alone, so it is the one the vertical phase integrates. *)
Theorem jump_gated_gravity_always
        (lvl : list Block) (p : Player) (keys : keystate) :
  let q := apply_input p keys in
  (jump_held keys = true -> on_ground p = true ->
   vy q = F32.add JUMP_STRENGTH GRAVITY /\ on_ground q = false)
  /\ (jump_held keys = false ->
      vy q = F32.add (vy p) GRAVITY /\ on_ground q = on_ground p)
  /\ (on_ground p = false ->
      vy q = F32.add (vy p) GRAVITY /\ on_ground q = false)
  /\ vy (move_x lvl q) = vy q.
Proof.
  intros q. subst q. rewrite apply_input_eq. cbn [vy on_ground].
  split; [|split; [|split]].
  - intros -> ->. split; reflexivity.
  - intros ->. split; reflexivity.
  - intros ->. rewrite andb_false_r. split; reflexivity.
  - apply move_x_frame.
Qed.

(** A grounded body jumps to [-12 + 0.5 = -11.5]; an airborne body that
    holds jump, and a grounded body that does not, only gain gravity. *)
Lemma jump_gated_gravity_always_witness :
  (vy (apply_input (at_rest 100 540 true) (only SDL_SCANCODE_SPACE))
     = F32.lit (-23) (-1)
   /\ on_ground (apply_input (at_rest 100 540 true) (only SDL_SCANCODE_SPACE))
      = false)
  /\ (vy (apply_input (at_rest 100 540 true) no_keys) = F32.lit 1 (-1)
      /\ on_ground (apply_input (at_rest 100 540 true) no_keys) = true)
  /\ (vy (apply_input (at_rest 100 400 false) (only SDL_SCANCODE_SPACE))
        = F32.lit 1 (-1)
      /\ on_ground (apply_input (at_rest 100 400 false)
                                (only SDL_SCANCODE_SPACE)) = false).
Proof.
  split; [|split].
  - apply (jump_gated_gravity_always level (at_rest 100 540 true)
             (only SDL_SCANCODE_SPACE)); reflexivity.
  - apply (jump_gated_gravity_always level (at_rest 100 540 true) no_keys);
      reflexivity.
  - apply (jump_gated_gravity_always level (at_rest 100 400 false)
             (only SDL_SCANCODE_SPACE)); reflexivity.
Defined.

(** ** Horizontal resolution *)

Lemma move_x_blocked (lvl : list Block) (p : Player) :
  (exists b, In b lvl /\ hits (F32.add (x p) (vx p)) (y p) b = true) ->
  move_x lvl p = p.
Proof.
  intros H. apply scan_x_true in H. unfold move_x. now rewrite H.
Qed.

Lemma move_x_free (lvl : list Block) (p : Player) :
  clear_of lvl (F32.add (x p) (vx p)) (y p) ->
  move_x lvl p =
  if F32.ge (F32.add (x p) (vx p)) (F32.of_int 0)
     && F32.le (F32.add (x p) (vx p))
               (F32.of_int (I32.sub WINDOW_WIDTH PLAYER_SIZE))
  then set_x p (F32.add (x p) (vx p)) else p.
Proof.
  intros H. apply scan_x_false in H. unfold move_x. now rewrite H.
Qed.

(** C2.  With [candidate_x = x + vx] tested at the body's current [y]:
    when some block is hit the body is left as it was; when no block is
    hit and [0 <= candidate_x <= WINDOW_WIDTH - PLAYER_SIZE] only [x]
    changes, to [candidate_x]; when no block is hit and the candidate is
    out of those bounds the body is left as it was.  The input phase has
    not moved the body, so the test is made at the [y] the step began
    with. *)
Theorem horizontal_resolution
        (lvl : list Block) (p : Player) (keys : keystate) :
  let q := apply_input p keys in
  let candidate_x := F32.add (x q) (vx q) in
  (x q = x p /\ y q = y p)
  /\ ((exists b, In b lvl /\ hits candidate_x (y q) b = true) ->
      move_x lvl q = q)
  /\ (clear_of lvl candidate_x (y q) ->
      F32.ge candidate_x (F32.of_int 0) = true ->
      F32.le candidate_x (F32.of_int (WINDOW_WIDTH - PLAYER_SIZE)) = true ->
      move_x lvl q = set_x q candidate_x)
  /\ (clear_of lvl candidate_x (y q) ->
      F32.ge candidate_x (F32.of_int 0) = false \/
      F32.le candidate_x (F32.of_int (WINDOW_WIDTH - PLAYER_SIZE)) = false ->
      move_x lvl q = q).
Proof.
  intros q candidate_x. split; [apply apply_input_pos|].
  split; [apply move_x_blocked|]. split.
  - intros Hc Hlo Hhi. rewrite (move_x_free lvl q Hc).
    fold candidate_x. rewrite Hlo. change (I32.sub WINDOW_WIDTH PLAYER_SIZE)
      with (WINDOW_WIDTH - PLAYER_SIZE). now rewrite Hhi.
  - intros Hc Hout. rewrite (move_x_free lvl q Hc). fold candidate_x.
    change (I32.sub WINDOW_WIDTH PLAYER_SIZE)
      with (WINDOW_WIDTH - PLAYER_SIZE).
    destruct Hout as [-> | ->]; [reflexivity|now rewrite andb_false_r].
Qed.

(** A wall one step to the right blocks the move; without it the body
    advances by [MOVE_SPEED]; at the left edge of the world a move to the
    left is dropped. *)
Lemma horizontal_resolution_witness :
  x (move_x [mkBlock 120 540]
            (apply_input (at_rest 100 540 true) (only SDL_SCANCODE_RIGHT)))
    = F32.of_int 100
  /\ x (move_x one_block
               (apply_input (at_rest 100 540 true) (only SDL_SCANCODE_RIGHT)))
     = F32.of_int 105
  /\ x (move_x one_block
               (apply_input (at_rest 0 540 true) (only SDL_SCANCODE_LEFT)))
     = F32.of_int 0.
Proof.
  split; [|split].
  - destruct (horizontal_resolution [mkBlock 120 540] (at_rest 100 540 true)
                (only SDL_SCANCODE_RIGHT)) as (_ & H & _).
    rewrite H; [reflexivity|].
    exists (mkBlock 120 540). split; [now left|reflexivity].
  - destruct (horizontal_resolution one_block (at_rest 100 540 true)
                (only SDL_SCANCODE_RIGHT)) as (_ & _ & H & _).
    rewrite H; [reflexivity| |reflexivity|reflexivity].
    intros b [<-|[]]. reflexivity.
  - destruct (horizontal_resolution one_block (at_rest 0 540 true)
                (only SDL_SCANCODE_LEFT)) as (_ & _ & _ & H).
    rewrite H; [reflexivity| |left; reflexivity].
    intros b [<-|[]]. reflexivity.
Defined.

(** The outcome of the horizontal loop does not depend on the order of
    the blocks. *)
Lemma scan_x_perm (l l' : list Block) (new_x py : float) :
  Permutation l l' -> scan_x l new_x py = scan_x l' new_x py.
Proof.
  intros H. rewrite !scan_x_existsb.
  induction H as [|b l l' _ IH|a b l|l l' l'' _ IH1 _ IH2]; simpl.
  - reflexivity.
  - now rewrite IH.
  - destruct (hits new_x py a), (hits new_x py b); reflexivity.
  - now rewrite IH1.
Qed.

(** C8.  Permuting the layout does not change the outcome of the
    horizontal sub-step: the body it returns, and so its [x], is the
    same, whatever the body and the keys. *)
Theorem horizontal_order_insensitive
        (l l' : list Block) (p : Player) (keys : keystate) :
  Permutation l l' ->
  move_x l (apply_input p keys) = move_x l' (apply_input p keys)
  /\ x (move_x l (apply_input p keys)) = x (move_x l' (apply_input p keys)).
Proof.
  intros H.
  assert (E : move_x l (apply_input p keys) = move_x l' (apply_input p keys)).
  { unfold move_x. now rewrite (scan_x_perm l l' _ _ H). }
  split; [exact E|now rewrite E].
Qed.

Lemma horizontal_order_insensitive_witness :
  x (move_x stair (apply_input (at_rest 30 530 false)
                               (only SDL_SCANCODE_RIGHT)))
  = x (move_x (rev stair) (apply_input (at_rest 30 530 false)
                                       (only SDL_SCANCODE_RIGHT))).
Proof.
  apply (horizontal_order_insensitive stair (rev stair)).
  exact (perm_swap (mkBlock 40 540) (mkBlock 0 560) []).
Defined.

(** ** Vertical resolution *)

Lemma move_y_miss (lvl : list Block) (p : Player) :
  clear_of lvl (x p) (F32.add (y p) (vy p)) ->
  move_y lvl p =
  mkPlayer (x p) (F32.add (y p) (vy p)) (vx p) (vy p) false.
Proof.
  intros H. unfold move_y.
  rewrite (scan_y_miss lvl _ (set_on_ground p false) H). reflexivity.
Qed.

Lemma move_y_first (lvl : list Block) (p : Player) (b : Block) :
  first_hit lvl (x p) (F32.add (y p) (vy p)) b ->
  move_y lvl p =
  if F32.gt (vy p) (F32.of_int 0)
  then land_on p b
  else bonk_under (set_on_ground p false) b.
Proof.
  intros (pre & post & -> & Hpre & Hb). unfold move_y.
  rewrite (scan_y_first pre post b _ (set_on_ground p false) Hpre Hb).
  cbn [vy set_on_ground negb]. destruct (F32.gt _ _); reflexivity.
Qed.

(** When a block is hit the velocity is comparable with zero. *)
Lemma hit_vy_sign (px py v : float) (b : Block) :
  hits px (F32.add py v) b = true ->
  F32.gt v (F32.of_int 0) = true \/
  (F32.gt v (F32.of_int 0) = false /\ F32.le v (F32.of_int 0) = true).
Proof.
  intros H. apply hit_vy_number in H.
  destruct (F32.gt v (F32.of_int 0)) eqn:E; [now left|right].
  split; [reflexivity|]. now apply not_gt_le.
Qed.

(** C1.  The vertical phase works on the body returned by the horizontal
    phase, with [candidate_y = y + vy].  If [b] is the first block of the
    layout hit at [(x, candidate_y)], the blocks after it are not looked
    at, the velocity is comparable with zero, and: with [vy > 0] the body
    gets [y = by - PLAYER_SIZE], [vy = 0], [on_ground = true]; with
    [vy <= 0] it gets [y = by + BLOCK_SIZE], [vy = 0], [on_ground =
    false].  If no block is hit, [y = candidate_y], with no clamp, the
    velocity is kept and [on_ground = false].  In every case [x] and [vx]
    are kept. *)
Theorem vertical_resolution
        (lvl : list Block) (p : Player) (keys : keystate) :
  let q := move_x lvl (apply_input p keys) in
  let candidate_y := F32.add (y q) (vy q) in
  step lvl p keys = keep_in_bounds (move_y lvl q)
  /\ (forall b, first_hit lvl (x q) candidate_y b ->
      (F32.gt (vy q) (F32.of_int 0) = true \/
       F32.le (vy q) (F32.of_int 0) = true)
      /\ (F32.gt (vy q) (F32.of_int 0) = true ->
          move_y lvl q =
          mkPlayer (x q) (F32.of_int (I32.sub (by_ b) PLAYER_SIZE)) (vx q)
                   (F32.of_int 0) true)
      /\ (F32.le (vy q) (F32.of_int 0) = true ->
          move_y lvl q =
          mkPlayer (x q) (F32.of_int (I32.add (by_ b) BLOCK_SIZE)) (vx q)
                   (F32.of_int 0) false))
  /\ (clear_of lvl (x q) candidate_y ->
      move_y lvl q = mkPlayer (x q) candidate_y (vx q) (vy q) false).
Proof.
  intros q candidate_y. split; [reflexivity|]. split.
  - intros b Hb. pose proof (move_y_first lvl q b Hb) as E.
    assert (Hs := Hb). destruct Hs as (_ & _ & _ & _ & Hs).
    apply hit_vy_sign in Hs. split; [tauto|]. split.
    + intros Hgt. rewrite E, Hgt. reflexivity.
    + intros Hle. rewrite E, (le_not_gt _ _ Hle). reflexivity.
  - apply move_y_miss.
Qed.

(** Landing on the floor block, bumping the head under it, and falling
    freely above it. *)
Lemma vertical_resolution_witness :
  move_y one_block (move_x one_block (apply_input (at_rest 100 540 false)
                                                  no_keys))
    = mkPlayer (F32.of_int 100) (F32.of_int 540) (F32.of_int 0)
               (F32.of_int 0) true
  /\ move_y one_block (move_x one_block (apply_input (moving 100 601 (-2) 0
                                                              false) no_keys))
     = mkPlayer (F32.of_int 100) (F32.of_int 600) (F32.of_int 0)
                (F32.of_int 0) false
  /\ move_y one_block (move_x one_block (apply_input spawn no_keys))
     = mkPlayer (F32.of_int 100) (F32.lit 801 (-1)) (F32.of_int 0)
                (F32.lit 1 (-1)) false.
Proof.
  split; [|split].
  - destruct (vertical_resolution one_block (at_rest 100 540 false) no_keys)
      as (_ & H & _).
    destruct (H (mkBlock 100 560)) as (_ & Hland & _).
    + exists [], []. split; [reflexivity|]. split; [intros b' []|reflexivity].
    + apply Hland. reflexivity.
  - destruct (vertical_resolution one_block (moving 100 601 (-2) 0 false)
                no_keys) as (_ & H & _).
    destruct (H (mkBlock 100 560)) as (_ & _ & Hbonk).
    + exists [], []. split; [reflexivity|]. split; [intros b' []|reflexivity].
    + apply Hbonk. reflexivity.
  - destruct (vertical_resolution one_block spawn no_keys) as (_ & _ & H).
    apply H. intros b [<-|[]]. reflexivity.
Defined.

(** ** Out-of-world recovery *)

(** C6.  Let [q] be the body after the vertical phase.  If
    [y q > WINDOW_HEIGHT] the step returns the body at [(100, 400)] with
    [vy = 0], the [vx] computed from the keys this tick and the
    [on_ground] left by the vertical phase.  If [y q <= WINDOW_HEIGHT],
    and whenever the test [y q > WINDOW_HEIGHT] is false, the step returns
    [q] itself. *)
Theorem out_of_world_recovery
        (lvl : list Block) (p : Player) (keys : keystate) :
  let q := move_y lvl (move_x lvl (apply_input p keys)) in
  (F32.gt (y q) (F32.of_int WINDOW_HEIGHT) = true ->
   step lvl p keys =
   mkPlayer (F32.of_int 100) (F32.of_int 400) (vx (apply_input p keys))
            (F32.of_int 0) (on_ground q))
  /\ (F32.le (y q) (F32.of_int WINDOW_HEIGHT) = true -> step lvl p keys = q)
  /\ (F32.gt (y q) (F32.of_int WINDOW_HEIGHT) = false -> step lvl p keys = q).
Proof.
  intros q.
  assert (Hvx : vx q = vx (apply_input p keys)).
  { unfold q. rewrite (proj2 (move_y_frame _ _)). apply move_x_frame. }
  assert (Hno : F32.gt (y q) (F32.of_int WINDOW_HEIGHT) = false ->
                step lvl p keys = q).
  { intros H. unfold step, keep_in_bounds. fold q. now rewrite H. }
  split; [|split]; [|intros H; apply Hno, le_not_gt, H|exact Hno].
  intros H. unfold step, keep_in_bounds. fold q. rewrite H, <- Hvx.
  reflexivity.
Qed.

(** A body that starts below the bottom of the window is put back at
    the spawn pose; a body at the spawn pose just falls. *)
Lemma out_of_world_recovery_witness :
  step level (at_rest 300 700 false) (only SDL_SCANCODE_RIGHT)
    = mkPlayer (F32.of_int 100) (F32.of_int 400) (F32.of_int 5)
               (F32.of_int 0) false
  /\ step level spawn no_keys
     = mkPlayer (F32.of_int 100) (F32.lit 801 (-1)) (F32.of_int 0)
                (F32.lit 1 (-1)) false
  /\ step level (at_rest 100 540 false) no_keys
     = at_rest 100 540 true.
Proof.
  split; [|split].
  - destruct (out_of_world_recovery level (at_rest 300 700 false)
                (only SDL_SCANCODE_RIGHT)) as (H & _).
    apply H. reflexivity.
  - destruct (out_of_world_recovery level spawn no_keys) as (_ & H & _).
    rewrite H; reflexivity.
  - destruct (out_of_world_recovery level (at_rest 100 540 false) no_keys)
      as (_ & _ & H).
    rewrite H; reflexivity.
Defined.

(** ** Grounded implies at rest vertically *)

Lemma move_y_grounded (lvl : list Block) (p : Player) :
  on_ground (move_y lvl p) = true -> vy (move_y lvl p) = F32.of_int 0.
Proof.
  destruct (first_hit_or_clear lvl (x p) (F32.add (y p) (vy p)))
    as [[b Hb]|Hclear].
  - rewrite (move_y_first lvl p b Hb).
    destruct (F32.gt _ _); reflexivity.
  - rewrite (move_y_miss lvl p Hclear). discriminate.
Qed.

(** C10.  At the end of a step, a grounded body has zero vertical
    velocity. *)
Theorem grounded_implies_vy_zero
        (lvl : list Block) (p : Player) (keys : keystate) :
  on_ground (step lvl p keys) = true -> vy (step lvl p keys) = F32.of_int 0.
Proof.
  unfold step. set (q := move_y lvl _).
  rewrite (proj2 (keep_in_bounds_frame q)). intros Hg.
  unfold keep_in_bounds. destruct (F32.gt _ _); [reflexivity|].
  now apply move_y_grounded.
Qed.

Lemma grounded_implies_vy_zero_witness :
  vy (step level (moving 100 530 25 (-1) false) no_keys) = F32.of_int 0.
Proof.
  apply (grounded_implies_vy_zero level (moving 100 530 25 (-1) false)).
  reflexivity.
Defined.

(** ** The worked scenario *)

(** On any layout the body of the scenario, which has no horizontal
    velocity, is left where it is by the horizontal phase. *)
Lemma scenario_move_x (lvl : list Block) :
  move_x lvl (apply_input (at_rest 100 540 false) no_keys)
  = mkPlayer (F32.of_int 100) (F32.of_int 540) (F32.of_int 0)
             (F32.lit 1 (-1)) false.
Proof.
  unfold move_x. destruct (_ && _); reflexivity.
Qed.

(** C9.  With [GRAVITY = 0.5], [BLOCK_SIZE = 40], [PLAYER_SIZE = 20], the
    body [{x=100, y=540, vx=0, vy=0, on_ground=false}] and no key held:
    the velocity becomes 0.5, the candidate height 540.5 hits the block
    [{100, 560}], and one step returns [y = 540], [vy = 0],
    [on_ground = true], the rest unchanged.  This holds on the layout made
    of that block alone, on the game's own [level], and on every layout
    that contains the block and in which every block hit at the candidate
    position has its top at 560. *)
Theorem concrete_scenario :
  (GRAVITY = F32.lit 1 (-1) /\ BLOCK_SIZE = 40 /\ PLAYER_SIZE = 20)
  /\ vy (apply_input (at_rest 100 540 false) no_keys) = F32.lit 1 (-1)
  /\ F32.add (F32.of_int 540) (F32.lit 1 (-1)) = F32.lit 1081 (-1)
  /\ hits (F32.of_int 100) (F32.lit 1081 (-1)) (mkBlock 100 560) = true
  /\ step one_block (at_rest 100 540 false) no_keys = at_rest 100 540 true
  /\ update_player (at_rest 100 540 false) no_keys = at_rest 100 540 true
  /\ (forall lvl,
         In (mkBlock 100 560) lvl ->
         (forall b, In b lvl ->
                    hits (F32.of_int 100) (F32.lit 1081 (-1)) b = true ->
                    by_ b = 560) ->
         step lvl (at_rest 100 540 false) no_keys = at_rest 100 540 true).
Proof.
  split; [repeat split|]. do 5 (split; [reflexivity|]).
  intros lvl Hin Hrow. unfold step. rewrite scenario_move_x.
  set (q := mkPlayer _ _ _ _ _).
  destruct (first_hit_or_clear lvl (x q) (F32.add (y q) (vy q)))
    as [[b Hb]|Hclear].
  - rewrite (move_y_first lvl q b Hb).
    assert (E : by_ b = 560).
    { destruct Hb as (pre & post & -> & _ & Hb).
      apply Hrow; [|exact Hb]. apply in_or_app. right. now left. }
    change (F32.gt (vy q) (F32.of_int 0)) with true. cbv iota.
    unfold land_on. rewrite E. reflexivity.
  - specialize (Hclear _ Hin). discriminate.
Qed.

Lemma concrete_scenario_witness :
  step (mkBlock 100 560 :: mkBlock 300 200 :: level)
       (at_rest 100 540 false) no_keys
  = at_rest 100 540 true.
Proof.
  apply concrete_scenario; [now left|].
  intros b Hb.
  repeat (destruct Hb as [<-|Hb]; [vm_compute; congruence|]).
  destruct Hb.
Defined.

(** ** Overlap after a sub-step *)




(** Far beyond that range rounding breaks the flush fit: with the block's
    top at [2^28 + 68] the landed body still overlaps the block. *)
Lemma land_on_rounding_limit :
  hits (x (land_on spawn (mkBlock 100 268435524)))
       (y (land_on spawn (mkBlock 100 268435524)))
       (mkBlock 100 268435524) = true.
Proof. vm_compute. reflexivity. Qed.



(** The horizontal phase either leaves the body as it was or moves it to
    a position tested against every block. *)
Lemma move_x_cases (lvl : list Block) (p : Player) :
  move_x lvl p = p
  \/ (move_x lvl p = set_x p (F32.add (x p) (vx p))
      /\ clear_of lvl (F32.add (x p) (vx p)) (y p)).
Proof.
  unfold move_x.
  destruct (scan_x lvl _ _) eqn:E; [now left|].
  destruct (_ && _); [right|now left].
  split; [reflexivity|]. now apply scan_x_false.
Qed.




(** ** The window *)

Lemma step_x_cases (lvl : list Block) (p : Player) (keys : keystate) :
  x (step lvl p keys) = x p \/ in_world_x (x (step lvl p keys)) = true.
Proof.
  unfold step, keep_in_bounds.
  destruct (F32.gt _ _); [right; vm_compute; reflexivity|].
  rewrite (proj1 (move_y_frame _ _)).
  destruct (move_x_cases lvl (apply_input p keys)) as [E|[E _]].
  - left. rewrite E. apply apply_input_pos.
  - unfold move_x in *.
    destruct (negb _) eqn:Hs; cbn [andb] in *.
    + destruct (F32.ge _ _) eqn:Hlo; cbn [andb] in *.
      * destruct (F32.le _ _) eqn:Hhi.
        -- right. cbn [x set_x]. unfold in_world_x. now rewrite Hlo, Hhi.
        -- left. apply apply_input_pos.
      * left. apply apply_input_pos.
    + left. apply apply_input_pos.
Qed.

Lemma step_not_below (lvl : list Block) (p : Player) (keys : keystate) :
  F32.gt (y (step lvl p keys)) (F32.of_int WINDOW_HEIGHT) = false.
Proof.
  unfold step, keep_in_bounds.
  destruct (F32.gt (y (move_y _ _)) _) eqn:E; [reflexivity|exact E].
Qed.

(** X1.  The body stays in the window.  A body whose [x] passes the
    bounds test [0 <= x <= 780] passes it after every frame, whatever the
    layout and the keys; and at the end of every frame, whatever the body
    was, [y > 600] is false.  So the game's body, which starts at the
    spawn pose, satisfies both after every frame. *)
Theorem stays_in_window
        (lvl : list Block) (inputs : list keystate) (p : Player) :
  in_world_x (x p) = true ->
  F32.gt (y p) (F32.of_int WINDOW_HEIGHT) = false ->
  in_world_x (x (run lvl inputs p)) = true
  /\ F32.gt (y (run lvl inputs p)) (F32.of_int WINDOW_HEIGHT) = false.
Proof.
  revert p. induction inputs as [|keys rest IH]; intros p Hx Hy.
  - now split.
  - cbn [run]. apply IH; [|apply step_not_below].
    destruct (step_x_cases lvl p keys) as [E|E]; [now rewrite E|exact E].
Qed.

Lemma stays_in_window_witness :
  in_world_x (x (play [only SDL_SCANCODE_LEFT; only SDL_SCANCODE_SPACE;
                       no_keys])) = true
  /\ F32.gt (y (play [only SDL_SCANCODE_LEFT; only SDL_SCANCODE_SPACE;
                      no_keys])) (F32.of_int WINDOW_HEIGHT) = false.
Proof.
  apply (stays_in_window level); reflexivity.
Defined.

(** ** Jumping and landing *)

(** X2.  A frame in which the jump fires ends in the air.  When a jump
    key is held and the body is grounded, the frame ends with
    [on_ground = false], and with a vertical velocity of either [-11.5]
    (free rise) or [0] (head bumped, or respawned): the landing branch
    cannot be taken.  The jump therefore cannot fire again in the next
    frame. *)
Theorem jump_ends_airborne
        (lvl : list Block) (p : Player) (keys keys' : keystate) :
  jump_held keys = true -> on_ground p = true ->
  on_ground (step lvl p keys) = false
  /\ (vy (step lvl p keys) = F32.lit (-23) (-1)
      \/ vy (step lvl p keys) = F32.of_int 0)
  /\ vy (apply_input (step lvl p keys) keys')
     = F32.add (vy (step lvl p keys)) GRAVITY.
Proof.
  intros Hj Hg.
  assert (Hvy : vy (move_x lvl (apply_input p keys)) = F32.lit (-23) (-1)).
  { rewrite (proj1 (proj2 (proj2 (move_x_frame _ _)))).
    rewrite apply_input_eq. cbn [vy]. rewrite Hj, Hg. reflexivity. }
  set (q := move_x lvl (apply_input p keys)) in *.
  assert (Hq : (on_ground (move_y lvl q) = false)
               /\ (vy (move_y lvl q) = F32.lit (-23) (-1)
                   \/ vy (move_y lvl q) = F32.of_int 0)).
  { destruct (first_hit_or_clear lvl (x q) (F32.add (y q) (vy q)))
      as [[b Hb]|Hc].
    - rewrite (move_y_first lvl q b Hb), Hvy.
      change (F32.gt (F32.lit (-23) (-1)) (F32.of_int 0)) with false.
      split; [reflexivity|right; reflexivity].
    - rewrite (move_y_miss lvl q Hc). cbn [on_ground vy].
      split; [reflexivity|left; exact Hvy]. }
  destruct Hq as [Hair Hv].
  assert (Hair' : on_ground (step lvl p keys) = false).
  { unfold step. fold q. now rewrite (proj2 (keep_in_bounds_frame _)). }
  split; [exact Hair'|]. split.
  - unfold step, keep_in_bounds. fold q.
    destruct (F32.gt _ _); [right; reflexivity|exact Hv].
  - rewrite apply_input_eq. cbn [vy]. now rewrite Hair', andb_false_r.
Qed.

Lemma jump_ends_airborne_witness :
  on_ground (step level (at_rest 100 540 true) (only SDL_SCANCODE_W)) = false
  /\ (vy (step level (at_rest 100 540 true) (only SDL_SCANCODE_W))
        = F32.lit (-23) (-1)
      \/ vy (step level (at_rest 100 540 true) (only SDL_SCANCODE_W))
         = F32.of_int 0)
  /\ vy (apply_input (step level (at_rest 100 540 true)
                            (only SDL_SCANCODE_W)) (only SDL_SCANCODE_W))
     = F32.add (vy (step level (at_rest 100 540 true) (only SDL_SCANCODE_W)))
               GRAVITY.
Proof.
  apply (jump_ends_airborne level (at_rest 100 540 true)); reflexivity.
Defined.

(** X3.  At the end of a frame the body is grounded exactly when this
    frame's vertical scan stopped at a block while the body was falling;
    it then stands on that block, [y = by - PLAYER_SIZE], unless the
    recovery has moved it.  The value [on_ground] had before the frame
    plays no part beyond gating the jump. *)
Theorem grounded_iff_landed
        (lvl : list Block) (p : Player) (keys : keystate) :
  let q := move_x lvl (apply_input p keys) in
  on_ground (step lvl p keys) = true <->
  exists b,
    first_hit lvl (x q) (F32.add (y q) (vy q)) b
    /\ F32.gt (vy q) (F32.of_int 0) = true
    /\ y (move_y lvl q) = F32.of_int (I32.sub (by_ b) PLAYER_SIZE).
Proof.
  intros q. unfold step. fold q.
  rewrite (proj2 (keep_in_bounds_frame _)).
  destruct (first_hit_or_clear lvl (x q) (F32.add (y q) (vy q)))
    as [[b Hb]|Hc].
  - rewrite (move_y_first lvl q b Hb).
    destruct (F32.gt (vy q) (F32.of_int 0)) eqn:E.
    + split; [intros _; exists b; repeat split; assumption|reflexivity].
    + split; [discriminate|]. intros (b' & _ & H & _). discriminate H.
  - rewrite (move_y_miss lvl q Hc). split; [discriminate|].
    intros (b & (pre & post & -> & _ & Hb) & _).
    rewrite (Hc b) in Hb; [discriminate|]. apply in_or_app. right. now left.
Qed.

Lemma grounded_iff_landed_witness :
  on_ground (step one_block (moving 100 530 25 (-1) false) no_keys) = true.
Proof.
  apply (grounded_iff_landed one_block (moving 100 530 25 (-1) false) no_keys).
  exists (mkBlock 100 560). split; [|split; reflexivity].
  exists [], []. split; [reflexivity|]. split; [intros b' []|reflexivity].
Defined.

(** ** Order of the blocks in the vertical scan *)

Lemma clear_of_perm (l l' : list Block) (px py : float) :
  Permutation l l' -> clear_of l px py -> clear_of l' px py.
Proof.
  intros H Hc b Hb. apply Hc. apply Permutation_in with (l := l'); [|exact Hb].
  now apply Permutation_sym.
Qed.

Lemma first_hit_in (lvl : list Block) (px py : float) (b : Block) :
  first_hit lvl px py b -> In b lvl /\ hits px py b = true.
Proof.
  intros (pre & post & -> & _ & Hb). split; [|exact Hb].
  apply in_or_app. right. now left.
Qed.

Lemma move_y_by_only (lvl lvl' : list Block) (p : Player) (b b' : Block) :
  first_hit lvl (x p) (F32.add (y p) (vy p)) b ->
  first_hit lvl' (x p) (F32.add (y p) (vy p)) b' ->
  by_ b = by_ b' ->
  move_y lvl p = move_y lvl' p.
Proof.
  intros Hb Hb' E.
  rewrite (move_y_first lvl p b Hb), (move_y_first lvl' p b' Hb').
  unfold land_on, bonk_under. now rewrite E.
Qed.

(** X4.  The vertical sub-step depends on the order of the blocks only
    through the height of the first block hit.  If all blocks of the
    layout hit at the candidate position have the same top, every
    permutation of the layout gives the same body.  Without that
    condition the order shows: on the stair the falling body lands at 540
    and on the reversed stair at 520. *)
Theorem vertical_order_same_row
        (l l' : list Block) (q : Player) :
  (Permutation l l' ->
   (forall b b', In b l -> In b' l ->
                 hits (x q) (F32.add (y q) (vy q)) b = true ->
                 hits (x q) (F32.add (y q) (vy q)) b' = true ->
                 by_ b = by_ b') ->
   move_y l q = move_y l' q)
  /\ y (move_y stair (moving 30 519 44 (-1) false)) = F32.of_int 540
  /\ y (move_y (rev stair) (moving 30 519 44 (-1) false)) = F32.of_int 520.
Proof.
  split; [|split; reflexivity].
  intros Hperm Hrow.
  destruct (first_hit_or_clear l (x q) (F32.add (y q) (vy q)))
    as [[b Hb]|Hc].
  - destruct (first_hit_or_clear l' (x q) (F32.add (y q) (vy q)))
      as [[b' Hb']|Hc'].
    + apply (move_y_by_only l l' q b b' Hb Hb').
      apply first_hit_in in Hb, Hb'. destruct Hb as [Hin Hh].
      destruct Hb' as [Hin' Hh'].
      apply Hrow; try assumption.
      apply Permutation_in with (l := l'); [now apply Permutation_sym|].
      exact Hin'.
    + apply first_hit_in in Hb. destruct Hb as [Hin Hh].
      rewrite (clear_of_perm l' l _ _ (Permutation_sym Hperm) Hc' b Hin)
        in Hh. discriminate.
  - rewrite (move_y_miss l q Hc).
    now rewrite (move_y_miss l' q (clear_of_perm l l' _ _ Hperm Hc)).
Qed.

Lemma vertical_order_same_row_witness :
  move_y [mkBlock 0 560; mkBlock 40 560] (moving 30 530 25 (-1) false)
  = move_y [mkBlock 40 560; mkBlock 0 560] (moving 30 530 25 (-1) false).
Proof.
  apply (vertical_order_same_row [mkBlock 0 560; mkBlock 40 560]
           [mkBlock 40 560; mkBlock 0 560]).
  - exact (perm_swap (mkBlock 40 560) (mkBlock 0 560) []).
  - intros b b' [<-|[<-|[]]] [<-|[<-|[]]] _ _; reflexivity.
Defined.

(** ** Not-a-number *)

Lemma add_nan_l (a : float) : F32.add S754_nan a = S754_nan.
Proof. reflexivity. Qed.

Lemma hits_nan_y (px : float) (b : Block) : hits px S754_nan b = false.
Proof.
  unfold hits, check_collision. now rewrite lt_nan_l, andb_false_r.
Qed.

Lemma is_nan_eq (a : float) : F32.is_nan a = true -> a = S754_nan.
Proof. destruct a; try discriminate. reflexivity. Qed.

(** X5.  A NaN height is never recovered.  If [y] is a NaN when a frame
    begins, then no block is hit in the vertical scan, the recovery test
    [y > 600] is false, and the frame ends with [y] a NaN and
    [on_ground = false]; so it is after every later frame. *)
Theorem nan_height_absorbing
        (lvl : list Block) (inputs : list keystate) (p : Player)
        (keys : keystate) :
  F32.is_nan (y p) = true ->
  F32.is_nan (y (run lvl (keys :: inputs) p)) = true
  /\ on_ground (run lvl (keys :: inputs) p) = false.
Proof.
  assert (One : forall p keys, F32.is_nan (y p) = true ->
                 F32.is_nan (y (step lvl p keys)) = true
                 /\ on_ground (step lvl p keys) = false).
  { clear. intros p keys Hy. apply is_nan_eq in Hy.
    set (q := move_x lvl (apply_input p keys)).
    assert (Hq : y q = S754_nan).
    { unfold q. rewrite (proj1 (move_x_frame _ _)).
      now rewrite (proj2 (apply_input_pos _ _)). }
    assert (E : move_y lvl q
                = mkPlayer (x q) S754_nan (vx q) (vy q) false).
    { rewrite move_y_miss; rewrite Hq, add_nan_l; [reflexivity|].
      intros b _. apply hits_nan_y. }
    unfold step, keep_in_bounds. fold q. rewrite E. cbn [y].
    change (F32.gt S754_nan (F32.of_int WINDOW_HEIGHT)) with false.
    split; reflexivity. }
  revert p keys. induction inputs as [|k rest IH]; intros p keys Hy.
  - cbn [run]. now apply One.
  - change (run lvl (keys :: k :: rest) p)
      with (run lvl (k :: rest) (step lvl p keys)).
    apply IH. now apply One.
Qed.

Lemma nan_height_absorbing_witness :
  F32.is_nan (y (run level [no_keys; only SDL_SCANCODE_SPACE]
                     (mkPlayer (F32.of_int 100) S754_nan (F32.of_int 0)
                               (F32.of_int 0) true))) = true
  /\ on_ground (run level [no_keys; only SDL_SCANCODE_SPACE]
                    (mkPlayer (F32.of_int 100) S754_nan (F32.of_int 0)
                              (F32.of_int 0) true)) = false.
Proof.
  apply (nan_height_absorbing level [only SDL_SCANCODE_SPACE]).
  reflexivity.
Defined.

(** ** Binary32 is exact on small dyadic numbers

    For [-100 <= e0 <= 100] and integers below [2^24] in absolute value,
    the numbers [z * 2^e0] are converted, added and compared without
    rounding. *)

Module F32Dyadic.

Import F32 F32Exact.

Lemma round_shifted_at (s : bool) (p : positive) (k : nat) (e0 : Z) :
  size p <= 24 -> -100 <= e0 <= 100 ->
  binary_round 24 128 s (shift p k) (e0 - Z.of_nat k) = normE s p e0.
Proof.
  intros Hp He. pose proof (size_pos p) as Hp1.
  unfold binary_round, normE. fold (size (shift p k)).
  rewrite size_shift.
  replace (size p + Z.of_nat k + (e0 - Z.of_nat k)) with (size p + e0) by lia.
  rewrite fexp_small by lia.
  set (d := Z.to_nat (24 - size p)).
  assert (Hd : Z.of_nat d = 24 - size p) by (unfold d; lia).
  assert (Hsz : size (shift p d) = 24) by (rewrite size_shift; lia).
  unfold shl_align.
  destruct (size p + e0 - 24 - (e0 - Z.of_nat k)) as [|j|j] eqn:E.
  - replace k with d by lia.
    replace (e0 - Z.of_nat d) with (size p - 24 + e0) by lia.
    apply round_aux_canonical; lia.
  - assert (Hk : k = (d + Pos.to_nat j)%nat) by lia.
    rewrite <- (round_aux_canonical s (shift p d) (size p - 24 + e0)) by lia.
    apply round_aux_shr.
    rewrite (shr_fexp_canonical (shift p d)) by lia.
    unfold shr_fexp. cbn [Zdigits2 shr_record_of_loc].
    fold (size (shift p k)). rewrite size_shift.
    replace (size p + Z.of_nat k + (e0 - Z.of_nat k)) with (size p + e0)
      by lia.
    rewrite fexp_small by lia.
    replace (size p + e0 - 24 - (e0 - Z.of_nat k))
      with (Z.of_nat (Pos.to_nat j)) by lia.
    rewrite Hk at 1. rewrite <- shift_shift, shr_exact.
    f_equal. lia.
  - rewrite pos_iter_shift, shift_shift.
    replace (k + Pos.to_nat j)%nat with d by lia.
    replace (size p + e0 - 24) with (size p - 24 + e0) by lia.
    apply round_aux_canonical; lia.
Qed.

Lemma lit_signed (s : bool) (p : positive) (e0 : Z) :
  size p <= 24 -> -100 <= e0 <= 100 ->
  lit (signed s p) e0 = normE s p e0.
Proof.
  intros Hp He. pose proof (round_shifted_at s p 0 e0 Hp He) as H.
  rewrite Z.sub_0_r in H. destruct s; exact H.
Qed.

Lemma signed_cases (z : Z) : z = 0 \/ exists s p, z = signed s p.
Proof.
  destruct z as [|p|p];
    [now left|right; now exists false, p|right; now exists true, p].
Qed.

Lemma signed_size (s : bool) (p : positive) :
  Z.abs (signed s p) < 2 ^ 24 -> size p <= 24.
Proof. intros H. apply size_le_24. destruct s; simpl in H; lia. Qed.

Lemma normalize_shifted_at (z : Z) (k : nat) (e0 : Z) :
  Z.abs z < 2 ^ 24 -> -100 <= e0 <= 100 ->
  binary_normalize 24 128 (z * 2 ^ Z.of_nat k) (e0 - Z.of_nat k) false
  = lit z e0.
Proof.
  intros Hz He. destruct (signed_cases z) as [->|(s & p & ->)];
    [reflexivity|].
  rewrite lit_signed by eauto using signed_size.
  rewrite <- (round_shifted_at s p k e0) by eauto using signed_size.
  destruct s; cbn [signed cond_Zopp].
  - change (- Zpos p) with (Zneg p). change (Zneg p) with (- Zpos p).
    rewrite Z.mul_opp_l, <- Zpos_shift. reflexivity.
  - rewrite <- Zpos_shift. reflexivity.
Qed.

Lemma add_normE (s1 s2 : bool) (p1 p2 : positive) (e0 : Z) :
  size p1 <= 24 -> size p2 <= 24 -> -100 <= e0 <= 100 ->
  Z.abs (signed s1 p1 + signed s2 p2) < 2 ^ 24 ->
  add (normE s1 p1 e0) (normE s2 p2 e0)
  = lit (signed s1 p1 + signed s2 p2) e0.
Proof.
  intros H1 H2 He Hsum.
  pose proof (size_pos p1). pose proof (size_pos p2).
  unfold normE, add. cbn [SFadd].
  set (e1 := size p1 - 24 + e0). set (e2 := size p2 - 24 + e0).
  set (K := Z.to_nat (e0 - Z.min e1 e2)).
  assert (HK : Z.min e1 e2 = e0 - Z.of_nat K) by (unfold K, e1, e2; lia).
  rewrite !shl_align_down, !shift_shift by lia.
  replace (Z.to_nat (24 - size p1) + Z.to_nat (e1 - Z.min e1 e2))%nat
    with K by (unfold K, e1, e2; lia).
  replace (Z.to_nat (24 - size p2) + Z.to_nat (e2 - Z.min e1 e2))%nat
    with K by (unfold K, e1, e2; lia).
  rewrite HK, <- (normalize_shifted_at _ K e0 Hsum He). f_equal.
  rewrite !Zpos_shift. unfold signed, cond_Zopp. destruct s1, s2; lia.
Qed.

Lemma add_lit (a b e0 : Z) :
  Z.abs a < 2 ^ 24 -> Z.abs b < 2 ^ 24 -> Z.abs (a + b) < 2 ^ 24 ->
  -100 <= e0 <= 100 ->
  add (lit a e0) (lit b e0) = lit (a + b) e0.
Proof.
  intros Ha Hb Hab He.
  destruct (signed_cases a) as [->|(s1 & p1 & ->)],
           (signed_cases b) as [->|(s2 & p2 & ->)].
  - reflexivity.
  - rewrite Z.add_0_l, lit_signed by eauto using signed_size. reflexivity.
  - rewrite Z.add_0_r, lit_signed by eauto using signed_size. reflexivity.
  - rewrite !lit_signed by eauto using signed_size.
    apply add_normE; eauto using signed_size.
Qed.

Lemma compare_normE (s1 s2 : bool) (p1 p2 : positive) (e0 : Z) :
  SFcompare (normE s1 p1 e0) (normE s2 p2 e0)
  = Some (signed s1 p1 ?= signed s2 p2).
Proof.
  unfold normE. cbn [SFcompare].
  pose proof (compare_magnitude p1 p2) as H.
  rewrite (Z.add_comm (size p1 - 24) e0), (Z.add_comm (size p2 - 24) e0),
    Z.add_compare_mono_l.
  destruct s1, s2; cbn [signed cond_Zopp Z.opp Z.compare]; try reflexivity.
  - rewrite <- H. destruct (size p1 - 24 ?= size p2 - 24); reflexivity.
  - rewrite <- H. reflexivity.
Qed.

Lemma compare_lit (a b e0 : Z) :
  Z.abs a < 2 ^ 24 -> Z.abs b < 2 ^ 24 -> -100 <= e0 <= 100 ->
  SFcompare (lit a e0) (lit b e0) = Some (a ?= b).
Proof.
  intros Ha Hb He.
  destruct (signed_cases a) as [->|(s1 & p1 & ->)],
           (signed_cases b) as [->|(s2 & p2 & ->)].
  - reflexivity.
  - rewrite lit_signed by eauto using signed_size. destruct s2; reflexivity.
  - rewrite lit_signed by eauto using signed_size. destruct s1; reflexivity.
  - rewrite !lit_signed by eauto using signed_size. apply compare_normE.
Qed.

Lemma of_int_half (a : Z) :
  Z.abs a < 2 ^ 24 -> of_int a = lit (2 * a) (-1).
Proof.
  intros Ha. pose proof (normalize_shifted_at a 1 0 Ha ltac:(lia)) as H.
  change (2 ^ Z.of_nat 1) with 2 in H. change (0 - Z.of_nat 1) with (-1) in H.
  rewrite Z.mul_comm in H. symmetry. exact H.
Qed.

End F32Dyadic.

Section Refine.

Import F32Dyadic.

Let P22 : 2 ^ 22 = 4194304 := eq_refl.
Let P20 : 2 ^ 20 = 1048576 := eq_refl.
Let P24 : 2 ^ 24 = 16777216 := eq_refl.

Lemma lt_lit (a b e0 : Z) :
  Z.abs a < 2 ^ 24 -> Z.abs b < 2 ^ 24 -> -100 <= e0 <= 100 ->
  F32.lt (F32.lit a e0) (F32.lit b e0) = (a <? b).
Proof.
  intros Ha Hb He. unfold F32.lt, SFltb.
  rewrite (compare_lit a b e0 Ha Hb He). unfold Z.ltb.
  destruct (a ?= b); reflexivity.
Qed.

Lemma le_lit (a b e0 : Z) :
  Z.abs a < 2 ^ 24 -> Z.abs b < 2 ^ 24 -> -100 <= e0 <= 100 ->
  F32.le (F32.lit a e0) (F32.lit b e0) = (a <=? b).
Proof.
  intros Ha Hb He. unfold F32.le, SFleb.
  rewrite (compare_lit a b e0 Ha Hb He). unfold Z.leb.
  destruct (a ?= b); reflexivity.
Qed.

Lemma hits_exact (ax ahy : Z) (b : Block) :
  Z.abs ax <= 2 ^ 22 -> Z.abs ahy <= 2 ^ 22 ->
  Z.abs (bx b) <= 2 ^ 20 -> Z.abs (by_ b) <= 2 ^ 20 ->
  hits (F32.of_int ax) (F32.lit ahy (-1)) b = Exact.overlaps ax ahy b.
Proof.
  intros Hx Hy Hbx Hby.
  unfold hits, check_collision, Exact.overlaps, I32.add, F32.gt,
    BLOCK_SIZE, PLAYER_SIZE.
  rewrite !wrap_small by lia.
  rewrite F32Exact.add_of_int by lia.
  rewrite !lt_of_int by lia.
  change (F32.of_int 20) with (F32.lit 40 (-1)).
  rewrite add_lit by lia.
  rewrite (of_int_half (by_ b + 40)), (of_int_half (by_ b)) by lia.
  rewrite !lt_lit by lia. reflexivity.
Qed.

Lemma existsb_ext_in {A} (f g : A -> bool) (l : list A) :
  (forall a, In a l -> f a = g a) -> existsb f l = existsb g l.
Proof.
  induction l as [|a l IH]; intros H; [reflexivity|]. cbn [existsb].
  rewrite (H a (or_introl eq_refl)), IH; [reflexivity|].
  intros a' Ha'. apply H. now right.
Qed.

Lemma apply_input_exact (s : Exact.body) (keys : keystate) :
  Z.abs (Exact.hvy s) <= 2 ^ 22 ->
  apply_input (Exact.embed s) keys = Exact.embed (Exact.apply_input s keys).
Proof.
  intros Hv. rewrite apply_input_eq. unfold Exact.embed, Exact.apply_input.
  cbn [x y vx vy on_ground Exact.px Exact.hy Exact.pvx Exact.hvy Exact.gr].
  f_equal.
  - destruct (right_held keys); [reflexivity|].
    destruct (left_held keys); reflexivity.
  - change GRAVITY with (F32.lit 1 (-1)).
    change JUMP_STRENGTH with (F32.lit (-24) (-1)).
    destruct (jump_held keys && Exact.gr s); rewrite add_lit by lia;
      reflexivity.
Qed.

Lemma move_x_exact (lvl : list Block) (s : Exact.body) :
  Exact.small_blocks lvl ->
  Z.abs (Exact.px s) <= 2 ^ 21 -> Z.abs (Exact.pvx s) <= 2 ^ 21 ->
  Z.abs (Exact.hy s) <= 2 ^ 22 ->
  move_x lvl (Exact.embed s) = Exact.embed (Exact.move_x lvl s).
Proof.
  intros Hl Hx Hvx Hy. unfold move_x, Exact.move_x.
  cbn [Exact.embed x y vx].
  rewrite F32Exact.add_of_int by lia.
  rewrite scan_x_existsb.
  rewrite (existsb_ext_in _ (Exact.overlaps (Exact.px s + Exact.pvx s)
                                            (Exact.hy s))).
  2:{ intros b Hb. destruct (Hl b Hb). apply hits_exact; lia. }
  unfold F32.ge. change (I32.sub WINDOW_WIDTH PLAYER_SIZE) with 780.
  change (F32.of_int 0) with (F32.lit 0 0).
  change (F32.of_int 780) with (F32.lit 780 0).
  change (F32.of_int (Exact.px s + Exact.pvx s))
    with (F32.lit (Exact.px s + Exact.pvx s) 0).
  rewrite !le_lit by lia.
  destruct (_ && _); reflexivity.
Qed.

Lemma find_first_hit (lvl : list Block) (px py : float) (f : Block -> bool)
      (b : Block) :
  (forall c, In c lvl -> hits px py c = f c) ->
  first_hit lvl px py b -> find f lvl = Some b.
Proof.
  intros Hf (pre & post & -> & Hpre & Hb).
  induction pre as [|c pre IH]; cbn [app find].
  - rewrite <- (Hf b (or_introl eq_refl)), Hb. reflexivity.
  - rewrite <- (Hf c (or_introl eq_refl)), (Hpre c (or_introl eq_refl)).
    apply IH.
    + intros c' Hc'. apply Hf. now right.
    + intros c' Hc'. apply Hpre. now right.
Qed.

Lemma find_clear (lvl : list Block) (px py : float) (f : Block -> bool) :
  (forall c, In c lvl -> hits px py c = f c) ->
  clear_of lvl px py -> find f lvl = None.
Proof.
  intros Hf Hc. induction lvl as [|c rest IH]; [reflexivity|]. cbn [find].
  rewrite <- (Hf c (or_introl eq_refl)), (Hc c (or_introl eq_refl)).
  apply IH.
  - intros c' Hc'. apply Hf. now right.
  - intros c' Hc'. apply Hc. now right.
Qed.

Lemma move_y_exact (lvl : list Block) (s : Exact.body) :
  Exact.small_blocks lvl ->
  Z.abs (Exact.px s) <= 2 ^ 21 -> Z.abs (Exact.hy s) <= 2 ^ 21 ->
  Z.abs (Exact.hvy s) <= 2 ^ 21 ->
  move_y lvl (Exact.embed s) = Exact.embed (Exact.move_y lvl s).
Proof.
  intros Hl Hx Hy Hv. unfold Exact.move_y.
  set (p := Exact.embed s).
  assert (Hny : F32.add (y p) (vy p)
                = F32.lit (Exact.hy s + Exact.hvy s) (-1)).
  { unfold p. cbn [Exact.embed y vy]. apply add_lit; lia. }
  assert (Hf : forall c, In c lvl ->
               hits (x p) (F32.add (y p) (vy p)) c
               = Exact.overlaps (Exact.px s) (Exact.hy s + Exact.hvy s) c).
  { intros c Hc. rewrite Hny. destruct (Hl c Hc).
    unfold p. cbn [Exact.embed x]. apply hits_exact; lia. }
  destruct (first_hit_or_clear lvl (x p) (F32.add (y p) (vy p)))
    as [[b Hb]|Hc].
  - rewrite (move_y_first lvl p b Hb).
    rewrite (find_first_hit lvl _ _ _ b Hf Hb).
    assert (Hin : In b lvl) by (apply (first_hit_in _ _ _ _ Hb)).
    destruct (Hl b Hin) as [_ Hby].
    unfold p at 1. cbn [Exact.embed vy]. unfold F32.gt.
    change (F32.of_int 0) with (F32.lit 0 (-1)).
    rewrite lt_lit by lia.
    unfold land_on, bonk_under, I32.sub, I32.add, PLAYER_SIZE, BLOCK_SIZE.
    rewrite !wrap_small by lia.
    rewrite (of_int_half (by_ b - 20)), (of_int_half (by_ b + 40)) by lia.
    destruct (0 <? Exact.hvy s); reflexivity.
  - rewrite (move_y_miss lvl p Hc), (find_clear lvl _ _ _ Hf Hc), Hny.
    reflexivity.
Qed.

Lemma keep_in_bounds_exact (s : Exact.body) :
  Z.abs (Exact.hy s) <= 2 ^ 22 ->
  keep_in_bounds (Exact.embed s) = Exact.embed (Exact.keep_in_bounds s).
Proof.
  intros Hy. unfold keep_in_bounds, Exact.keep_in_bounds, F32.gt.
  cbn [Exact.embed y]. change (F32.of_int WINDOW_HEIGHT) with (F32.lit 1200 (-1)).
  rewrite lt_lit by lia. destruct (1200 <? Exact.hy s); reflexivity.
Qed.

End Refine.

Section StepExact.

Let P22 : 2 ^ 22 = 4194304 := eq_refl.
Let P21 : 2 ^ 21 = 2097152 := eq_refl.
Let P20 : 2 ^ 20 = 1048576 := eq_refl.

Lemma exact_move_x_frame (lvl : list Block) (s : Exact.body) :
  (Exact.px (Exact.move_x lvl s) = Exact.px s
   \/ Exact.px (Exact.move_x lvl s) = Exact.px s + Exact.pvx s)
  /\ Exact.hy (Exact.move_x lvl s) = Exact.hy s
  /\ Exact.pvx (Exact.move_x lvl s) = Exact.pvx s
  /\ Exact.hvy (Exact.move_x lvl s) = Exact.hvy s
  /\ Exact.gr (Exact.move_x lvl s) = Exact.gr s.
Proof.
  unfold Exact.move_x. destruct (_ && _); cbn; auto.
Qed.

Lemma exact_move_y_hy (lvl : list Block) (s : Exact.body) :
  Exact.small_blocks lvl ->
  Z.abs (Exact.hy s) <= 2 ^ 21 -> Z.abs (Exact.hvy s) <= 2 ^ 21 ->
  Z.abs (Exact.hy (Exact.move_y lvl s)) <= 2 ^ 22.
Proof.
  intros Hl Hy Hv. unfold Exact.move_y.
  destruct (find _ lvl) as [b|] eqn:E.
  - apply find_some in E. destruct E as [Hin _].
    destruct (Hl b Hin) as [_ Hby].
    destruct (0 <? Exact.hvy s); cbn [Exact.hy]; lia.
  - cbn [Exact.hy]. lia.
Qed.

Lemma phases_exact (lvl : list Block) (s : Exact.body) (keys : keystate) :
  Exact.small_blocks lvl -> Exact.small s ->
  move_y lvl (move_x lvl (apply_input (Exact.embed s) keys))
  = Exact.embed (Exact.move_y lvl (Exact.move_x lvl
                                     (Exact.apply_input s keys)))
  /\ Z.abs (Exact.hy (Exact.move_y lvl (Exact.move_x lvl
                                          (Exact.apply_input s keys))))
     <= 2 ^ 22.
Proof.
  intros Hl (Hx & Hy & Hvx & Hv).
  rewrite apply_input_exact by lia.
  set (s1 := Exact.apply_input s keys).
  assert (H1 : Exact.px s1 = Exact.px s /\ Exact.hy s1 = Exact.hy s
               /\ Z.abs (Exact.pvx s1) <= 5
               /\ Z.abs (Exact.hvy s1) <= 2 ^ 20 + 1).
  { unfold s1, Exact.apply_input.
    cbn [Exact.px Exact.hy Exact.pvx Exact.hvy Exact.gr].
    destruct (right_held keys), (left_held keys),
      (jump_held keys && Exact.gr s); lia. }
  destruct H1 as (E1x & E1y & H1vx & H1v).
  rewrite move_x_exact by (try assumption; lia).
  destruct (exact_move_x_frame lvl s1) as (H2x & E2y & E2vx & E2v & _).
  set (s2 := Exact.move_x lvl s1) in *.
  rewrite move_y_exact by (try assumption; lia).
  split; [reflexivity|].
  apply exact_move_y_hy; try assumption; lia.
Qed.

Lemma step_exact_small (lvl : list Block) (s : Exact.body) (keys : keystate) :
  Exact.small_blocks lvl -> Exact.small s ->
  step lvl (Exact.embed s) keys = Exact.embed (Exact.step lvl s keys).
Proof.
  intros Hl Hs. unfold step, Exact.step.
  destruct (phases_exact lvl s keys Hl Hs) as [-> Hb].
  now apply keep_in_bounds_exact.
Qed.

End StepExact.

Section Level.

Lemma in_range (X : Z) :
  0 <= X <= 780 -> In X (map Z.of_nat (seq 0 781)).
Proof.
  intros H. apply in_map_iff. exists (Z.to_nat X).
  split; [lia|]. apply in_seq. lia.
Qed.

Lemma level_rows (b : Block) :
  In b level ->
  0 <= bx b <= 760 /\ 240 <= by_ b <= 560 /\ (by_ b < 560 -> by_ b <= 480).
Proof.
  assert (H : forallb (fun b => (0 <=? bx b) && (bx b <=? 760)
                                && (240 <=? by_ b) && (by_ b <=? 560)
                                && ((560 <=? by_ b) || (by_ b <=? 480)))
                      level = true) by (vm_compute; reflexivity).
  intros Hb. rewrite forallb_forall in H. specialize (H b Hb).
  rewrite !andb_true_iff, orb_true_iff, !Z.leb_le in H. lia.
Qed.

Lemma overlaps_iff (ax ahy : Z) (b : Block) :
  Exact.overlaps ax ahy b = true <->
  ax < bx b + 40 /\ bx b < ax + 20
  /\ ahy < 2 * (by_ b + 40) /\ 2 * by_ b < ahy + 40.
Proof.
  unfold Exact.overlaps. rewrite !andb_true_iff, !Z.ltb_lt. tauto.
Qed.

(** The floor has no gap. *)
Lemma level_floor (X Y : Z) :
  0 <= X <= 780 -> 1080 < Y < 1200 ->
  existsb (Exact.overlaps X Y) level = true.
Proof.
  intros HX HY.
  assert (H : forallb (fun X => existsb (fun b => (by_ b =? 560)
                                           && (X <? bx b + 40)
                                           && (bx b <? X + 20)) level)
                      (map Z.of_nat (seq 0 781)) = true)
    by (vm_compute; reflexivity).
  rewrite forallb_forall in H. specialize (H X (in_range X HX)).
  apply existsb_exists in H. destruct H as (b & Hb & H).
  rewrite !andb_true_iff, Z.eqb_eq, !Z.ltb_lt in H.
  apply existsb_exists. exists b. split; [exact Hb|].
  apply overlaps_iff. lia.
Qed.

(** Wherever the body is snapped, it overlaps no block. *)
Lemma level_snap_clear (X : Z) (b : Block) :
  0 <= X <= 780 -> In b level -> X < bx b + 40 -> bx b < X + 20 ->
  existsb (Exact.overlaps X (2 * (by_ b - 20))) level = false
  /\ existsb (Exact.overlaps X (2 * (by_ b + 40))) level = false.
Proof.
  intros HX Hb H1 H2.
  assert (H : forallb
                (fun X =>
                   forallb
                     (fun b =>
                        implb ((X <? bx b + 40) && (bx b <? X + 20))
                              (negb (existsb (Exact.overlaps
                                                X (2 * (by_ b - 20))) level)
                               && negb (existsb (Exact.overlaps
                                                   X (2 * (by_ b + 40)))
                                                level)))
                     level)
                (map Z.of_nat (seq 0 781)) = true)
    by (vm_compute; reflexivity).
  rewrite forallb_forall in H. specialize (H X (in_range X HX)).
  rewrite forallb_forall in H. specialize (H b Hb).
  assert (E : (X <? bx b + 40) && (bx b <? X + 20) = true)
    by (rewrite andb_true_iff, !Z.ltb_lt; lia).
  rewrite E in H. cbn [implb] in H.
  rewrite andb_true_iff, !negb_true_iff in H. exact H.
Qed.

Lemma game_inv_step (s : Exact.body) (keys : keystate) :
  Exact.game_inv s ->
  Exact.game_inv (Exact.move_y level (Exact.move_x level (Exact.apply_input s keys)))
  /\ Exact.step level s keys
     = Exact.move_y level (Exact.move_x level (Exact.apply_input s keys)).
Proof.
  intros (Hx & Hvx & Hy & Hv & He & Hg & Hc).
  set (s1 := Exact.apply_input s keys).
  assert (H1 : Exact.px s1 = Exact.px s /\ Exact.hy s1 = Exact.hy s
               /\ -5 <= Exact.pvx s1 <= 5 /\ -23 <= Exact.hvy s1
               /\ Exact.hvy s1 * Exact.hvy s1 - Exact.hvy s1 + 328
                  <= 2 * Exact.hy s).
  { unfold s1, Exact.apply_input. cbn [Exact.px Exact.hy Exact.pvx Exact.hvy Exact.gr].
    repeat split; try (destruct (right_held keys), (left_held keys); lia).
    - destruct (jump_held keys && Exact.gr s); lia.
    - destruct (jump_held keys), (Exact.gr s); cbn [andb];
        try specialize (Hg eq_refl); nia. }
  destruct H1 as (E1x & E1y & H1vx & H1v & H1e).
  set (s2 := Exact.move_x level s1).
  assert (H2 : 0 <= Exact.px s2 <= 780 /\ Exact.hy s2 = Exact.hy s
               /\ Exact.pvx s2 = Exact.pvx s1 /\ Exact.hvy s2 = Exact.hvy s1
               /\ Exact.clear level s2 = true).
  { unfold s2, Exact.move_x.
    destruct (negb _ && _ && _) eqn:E.
    - rewrite !andb_true_iff, !Z.leb_le in E. destruct E as ((Ec & ?) & ?).
      unfold Exact.clear. cbn [Exact.px Exact.hy Exact.pvx Exact.hvy Exact.gr].
      repeat split; try lia. exact Ec.
    - unfold Exact.clear in *. rewrite E1x, E1y. repeat split; try lia. exact Hc. }
  destruct H2 as (H2x & E2y & E2vx & E2v & H2c).
  assert (Hv43 : Exact.hvy s1 <= 43) by nia.
  set (s3 := Exact.move_y level s2).
  assert (H3 : Exact.game_inv s3).
  { unfold s3, Exact.move_y. rewrite E2y, E2v.
    destruct (find _ level) as [b|] eqn:E.
    - apply find_some in E. destruct E as [Hb Ho].
      apply overlaps_iff in Ho. destruct Ho as (O1 & O2 & O3 & O4).
      destruct (level_rows b Hb) as (R1 & R2 & R3).
      destruct (level_snap_clear (Exact.px s2) b H2x Hb O1 O2) as [C1 C2].
      destruct (0 <? Exact.hvy s1) eqn:Ev.
      + unfold Exact.game_inv, Exact.clear. cbn [Exact.px Exact.hy Exact.pvx Exact.hvy Exact.gr]. rewrite C1.
        repeat split; try lia.
      + apply Z.ltb_ge in Ev. unfold Exact.game_inv, Exact.clear. cbn [Exact.px Exact.hy Exact.pvx Exact.hvy Exact.gr]. rewrite C2.
        repeat split; try lia; discriminate.
    - unfold Exact.game_inv, Exact.clear. cbn [Exact.px Exact.hy Exact.pvx Exact.hvy Exact.gr].
      assert (Hn : existsb (Exact.overlaps (Exact.px s2)
                                           (Exact.hy s + Exact.hvy s1))
                           level = false).
      { destruct (existsb _ level) eqn:Ex; [|reflexivity].
        apply existsb_exists in Ex. destruct Ex as (b & Hb & Ho).
        rewrite (find_none _ _ E b Hb) in Ho. discriminate. }
      rewrite Hn.
      assert (Hlow : Exact.hy s + Exact.hvy s1 <= 1080).
      { destruct (Z_le_gt_dec (Exact.hy s + Exact.hvy s1) 1080) as [L|G];
          [exact L|].
        rewrite (level_floor (Exact.px s2) (Exact.hy s + Exact.hvy s1))
          in Hn by lia. discriminate. }
      repeat split; try lia; discriminate. }
  split; [exact H3|].
  unfold Exact.step, Exact.keep_in_bounds. fold s1 s2 s3.
  destruct H3 as (_ & _ & H3y & _).
  destruct (1200 <? Exact.hy s3) eqn:E; [|reflexivity].
  apply Z.ltb_lt in E. lia.
Qed.

End Level.

Section Game.

Let P20 : 2 ^ 20 = 1048576 := eq_refl.

Lemma level_small : Exact.small_blocks level.
Proof.
  intros b Hb. destruct (level_rows b Hb) as (? & ? & _). lia.
Qed.

Lemma game_inv_bounds (s : Exact.body) :
  Exact.game_inv s ->
  164 <= Exact.hy s /\ Exact.hvy s <= 42.
Proof.
  intros (Hx & Hvx & Hy & Hv & He & Hg & Hc). split; nia.
Qed.

Lemma game_inv_small (s : Exact.body) : Exact.game_inv s -> Exact.small s.
Proof.
  intros H. destruct (game_inv_bounds s H).
  destruct H as (Hx & Hvx & Hy & Hv & _). unfold Exact.small. lia.
Qed.

Lemma game_inv_spawn : Exact.game_inv Exact.spawn.
Proof.
  unfold Exact.game_inv, Exact.spawn. cbn [Exact.px Exact.hy Exact.pvx Exact.hvy
                                     Exact.gr].
  split; [lia|]. split; [lia|]. split; [lia|]. split; [lia|].
  split; [lia|]. split; [discriminate|]. vm_compute. reflexivity.
Qed.

Lemma run_exact (inputs : list keystate) (s : Exact.body) :
  Exact.game_inv s ->
  run level inputs (Exact.embed s)
  = Exact.embed (Exact.run level inputs s)
  /\ Exact.game_inv (Exact.run level inputs s).
Proof.
  revert s. induction inputs as [|keys rest IH]; intros s Hs.
  - now split.
  - cbn [run Exact.run].
    rewrite (step_exact_small level s keys level_small (game_inv_small s Hs)).
    apply IH. destruct (game_inv_step s keys Hs) as [H ->]. exact H.
Qed.

End Game.

Section Cast.

Import F32Dyadic.

Let P24 : 2 ^ 24 = 16777216 := eq_refl.

Lemma to_int_normE (s : bool) (p : positive) (e0 : Z) :
  F32.size p <= 24 -> -100 <= e0 <= 0 ->
  to_int (normE s p e0)
  = Some (if s then - (Zpos p / 2 ^ (- e0)) else Zpos p / 2 ^ (- e0)).
Proof.
  intros Hp He. pose proof (F32Exact.size_pos p) as Hp1.
  pose proof (F32Exact.size_bounds p) as [_ Hlt].
  assert (Hp24 : Zpos p < 2 ^ 24).
  { apply Z.lt_le_trans with (2 ^ F32.size p); [exact Hlt|].
    apply Z.pow_le_mono_r; lia. }
  unfold normE, to_int.
  set (d := Z.to_nat (24 - F32.size p)).
  assert (Hd : Z.of_nat d = 24 - F32.size p) by (unfold d; lia).
  assert (Hv : (if 0 <=? F32.size p - 24 + e0
                then Zpos (F32.shift p d) * 2 ^ (F32.size p - 24 + e0)
                else Zpos (F32.shift p d) / 2 ^ (- (F32.size p - 24 + e0)))
               = Zpos p / 2 ^ (- e0)).
  { rewrite F32Exact.Zpos_shift.
    destruct (0 <=? F32.size p - 24 + e0) eqn:E.
    - apply Z.leb_le in E.
      replace (F32.size p - 24 + e0) with 0 by lia.
      replace (Z.of_nat d) with 0 by lia. replace (- e0) with 0 by lia.
      rewrite Z.pow_0_r, Z.div_1_r. lia.
    - replace (- (F32.size p - 24 + e0)) with (Z.of_nat d + - e0) by lia.
      rewrite Z.pow_add_r by lia.
      rewrite (Z.mul_comm (2 ^ Z.of_nat d)).
      apply Z.div_mul_cancel_r; apply Z.pow_nonzero; lia. }
  rewrite Hv.
  assert (Hq : 0 <= Zpos p / 2 ^ (- e0) <= Zpos p).
  { split; [apply Z.div_pos; [lia|apply Z.pow_pos_nonneg; lia]|].
    apply Z.div_le_upper_bound; [apply Z.pow_pos_nonneg; lia|].
    assert (0 < 2 ^ (- e0)) by (apply Z.pow_pos_nonneg; lia). nia. }
  destruct s.
  - replace ((-2147483648 <=? - (Zpos p / 2 ^ (- e0)))
             && (- (Zpos p / 2 ^ (- e0)) <=? 2147483647)) with true;
      [reflexivity|].
    symmetry. rewrite andb_true_iff, !Z.leb_le. lia.
  - replace ((-2147483648 <=? Zpos p / 2 ^ (- e0))
             && (Zpos p / 2 ^ (- e0) <=? 2147483647)) with true;
      [reflexivity|].
    symmetry. rewrite andb_true_iff, !Z.leb_le. lia.
Qed.

Lemma to_int_lit (z e0 : Z) :
  0 <= z < 2 ^ 24 -> -100 <= e0 <= 0 ->
  to_int (F32.lit z e0) = Some (z / 2 ^ (- e0)).
Proof.
  intros Hz He. destruct z as [|p|p]; try lia.
  - rewrite Z.div_0_l by (apply Z.pow_nonzero; lia). reflexivity.
  - change (Zpos p) with (F32.signed false p) at 1.
    rewrite lit_signed by (try apply F32Exact.size_le_24; lia).
    apply to_int_normE; [apply F32Exact.size_le_24|]; lia.
Qed.

End Cast.

(** ** The step and the game in exact arithmetic *)

(** X6.  On small half-pixel states binary32 does not round: if the
    block coordinates and the body's [x] and [vx], which are integers,
    are at most [2^20] in absolute value, and its [y] and [vy], which are
    multiples of one half, are at most [2^19] in absolute value (the
    model holds their doubles, at most [2^20]), the step computed in
    binary32 is the step computed in exact integer arithmetic. *)
Theorem exact_on_half_pixels
        (lvl : list Block) (s : Exact.body) (keys : keystate) :
  Exact.small_blocks lvl -> Exact.small s ->
  step lvl (Exact.embed s) keys = Exact.embed (Exact.step lvl s keys).
Proof.
  intros Hl Hs. unfold step, Exact.step.
  destruct (phases_exact lvl s keys Hl Hs) as [E Hb].
  rewrite E. apply keep_in_bounds_exact. exact Hb.
Qed.

Lemma exact_on_half_pixels_witness :
  step stair (Exact.embed (Exact.mk 30 1038 0 43 false)) no_keys
  = Exact.embed (Exact.step stair (Exact.mk 30 1038 0 43 false) no_keys).
Proof.
  apply exact_on_half_pixels.
  - intros b [<-|[<-|[]]]; simpl; lia.
  - unfold Exact.small. simpl. lia.
Defined.

Lemma spawn_exact : Exact.embed Exact.spawn = spawn.
Proof. reflexivity. Qed.

Lemma play_exact (inputs : list keystate) :
  play inputs = Exact.embed (Exact.run level inputs Exact.spawn)
  /\ Exact.game_inv (Exact.run level inputs Exact.spawn).
Proof.
  unfold play. rewrite <- spawn_exact.
  apply run_exact, game_inv_spawn.
Qed.

(** X7.  The game never rounds and stays in range.  Whatever keys are
    held in whatever frames, the body of the game after those frames is
    the body of the exact integer model; its [x] is an integer in
    [0, 780], its [y] a multiple of one half in [82, 540], its [vx] in
    [-5, 5] and its [vy] a multiple of one half in [-11.5, 21]; a
    grounded body has [vy = 0].  In particular no coordinate is ever a
    NaN or an infinity. *)
Theorem game_exact_and_bounded (inputs : list keystate) :
  let s := Exact.run level inputs Exact.spawn in
  play inputs = Exact.embed s
  /\ 0 <= Exact.px s <= 780
  /\ 164 <= Exact.hy s <= 1080
  /\ -5 <= Exact.pvx s <= 5
  /\ -23 <= Exact.hvy s <= 42
  /\ (Exact.gr s = true -> Exact.hvy s = 0).
Proof.
  intros s. destruct (play_exact inputs) as [E H]. fold s in E, H.
  destruct (game_inv_bounds s H) as [Hlo Hhi].
  destruct H as (Hx & Hvx & Hy & Hv & _ & Hg & _).
  repeat split; try assumption; try lia. intros G. now apply Hg.
Qed.

(** X8.  In the game the body never overlaps a block between frames:
    whatever keys are held in whatever frames, the body's box overlaps no
    block of [level] when a frame ends. *)
Theorem game_never_overlaps (inputs : list keystate) :
  clear_of level (x (play inputs)) (y (play inputs)).
Proof.
  destruct (play_exact inputs) as [E H]. rewrite E.
  set (s := Exact.run level inputs Exact.spawn) in *.
  destruct (game_inv_bounds s H) as [Hlo Hhi].
  destruct H as (Hx & Hvx & Hy & Hv & _ & _ & Hc).
  intros b Hb. cbn [Exact.embed x y].
  destruct (level_small b Hb).
  rewrite hits_exact by lia.
  unfold Exact.clear in Hc. apply negb_true_iff in Hc.
  destruct (Exact.overlaps _ _ b) eqn:E'; [|reflexivity].
  assert (existsb (Exact.overlaps (Exact.px s) (Exact.hy s)) level = true)
    by (apply existsb_exists; eauto).
  congruence.
Qed.

(** X9.  In the game the recovery of lines 150-154 never runs: whatever
    keys are held in whatever frames, the body after the vertical phase
    of the next frame has [y <= 540], so the test [y > 600] is false and
    [update_player] returns that body unchanged.  The floor has no gap to
    fall through. *)
Theorem game_never_respawns (inputs : list keystate) (keys : keystate) :
  let q := move_y level (move_x level (apply_input (play inputs) keys)) in
  F32.le (y q) (F32.of_int 540) = true
  /\ F32.gt (y q) (F32.of_int WINDOW_HEIGHT) = false
  /\ update_player (play inputs) keys = q.
Proof.
  intros q. destruct (play_exact inputs) as [E H].
  set (s := Exact.run level inputs Exact.spawn) in *.
  destruct (phases_exact level s keys level_small (game_inv_small s H))
    as [Eq _].
  rewrite <- E in Eq. fold q in Eq.
  destruct (game_inv_step s keys H) as [H3 _].
  set (s3 := Exact.move_y level _) in *.
  destruct (game_inv_bounds s3 H3) as [Hlo _].
  destruct H3 as (_ & _ & Hy3 & _).
  assert (Hle : F32.le (y q) (F32.of_int 540) = true).
  { rewrite Eq. cbn [Exact.embed y].
    change (F32.of_int 540) with (F32.lit 1080 (-1)).
    rewrite le_lit by lia. apply Z.leb_le. exact Hy3. }
  assert (Hgt : F32.gt (y q) (F32.of_int WINDOW_HEIGHT) = false).
  { rewrite Eq. cbn [Exact.embed y]. unfold F32.gt.
    change (F32.of_int WINDOW_HEIGHT) with (F32.lit 1200 (-1)).
    rewrite lt_lit by lia. apply Z.ltb_ge. lia. }
  split; [exact Hle|]. split; [exact Hgt|].
  unfold update_player, step, keep_in_bounds. fold q. now rewrite Hgt.
Qed.

(** X10.  The rectangle [main] draws for the body is always defined and
    inside the 800 x 600 window: after any frames both conversions to
    [int] are defined, the rectangle is 20 x 20, its left edge is the
    body's integer [x] in [0, 780] and its top edge is [y] truncated, in
    [82, 540]. *)
Theorem drawn_rect_in_window (inputs : list keystate) :
  exists a b,
    player_rect (play inputs) = Some (mkRect a b 20 20)
    /\ 0 <= a /\ a + 20 <= WINDOW_WIDTH
    /\ 0 <= b /\ b + 20 <= WINDOW_HEIGHT
    /\ a = Exact.px (Exact.run level inputs Exact.spawn)
    /\ b = Exact.hy (Exact.run level inputs Exact.spawn) / 2
    /\ 0 <= a <= 780 /\ 82 <= b <= 540.
Proof.
  destruct (play_exact inputs) as [E H].
  set (s := Exact.run level inputs Exact.spawn) in *.
  destruct (game_inv_bounds s H) as [Hlo Hhi].
  destruct H as (Hx & Hvx & Hy & Hv & _).
  exists (Exact.px s), (Exact.hy s / 2).
  assert (H24 : 2 ^ 24 = 16777216) by reflexivity.
  split.
  - rewrite E. unfold player_rect. cbn [Exact.embed x y].
    change (F32.of_int (Exact.px s)) with (F32.lit (Exact.px s) 0).
    rewrite (to_int_lit (Exact.px s) 0), (to_int_lit (Exact.hy s) (-1))
      by lia.
    change (2 ^ (- 0)) with 1. change (2 ^ (- -1)) with 2.
    now rewrite Z.div_1_r.
  - unfold WINDOW_WIDTH, WINDOW_HEIGHT.
    assert (82 <= Exact.hy s / 2 <= 540)
      by (split; [apply Z.div_le_lower_bound|apply Z.div_le_upper_bound];
          lia).
    repeat split; lia.
Qed.

(** ** Standing still *)

Lemma exact_step_standing (s : Exact.body) (keys : keystate) :
  Exact.game_inv s -> Exact.standing level (Exact.step level s keys).
Proof.
  intros H. destruct (game_inv_step s keys H) as [_ ->].
  unfold Exact.standing, Exact.move_y.
  set (s2 := Exact.move_x level _).
  destruct (find _ level) as [b|] eqn:E.
  - apply find_some in E. destruct E as [Hb Ho].
    apply overlaps_iff in Ho. destruct Ho as (O1 & O2 & _).
    destruct (0 <? Exact.hvy s2);
      cbn [Exact.px Exact.hy Exact.gr]; [|discriminate].
    intros _. exists b. repeat split; assumption.
  - cbn [Exact.gr]. discriminate.
Qed.

Lemma exact_run_standing (inputs : list keystate) (s : Exact.body) :
  Exact.game_inv s -> Exact.standing level s ->
  Exact.standing level (Exact.run level inputs s).
Proof.
  revert s. induction inputs as [|keys rest IH]; intros s H Hs; [exact Hs|].
  cbn [Exact.run]. apply IH; [|now apply exact_step_standing].
  destruct (game_inv_step s keys H) as [H' ->]. exact H'.
Qed.

Lemma exact_rest_stable (s : Exact.body) (keys : keystate) :
  Exact.game_inv s -> Exact.standing level s -> Exact.gr s = true ->
  left_held keys = false -> right_held keys = false ->
  jump_held keys = false ->
  Exact.step level s keys = Exact.mk (Exact.px s) (Exact.hy s) 0 0 true.
Proof.
  intros H Hst Hg Hl Hr Hj.
  destruct (game_inv_step s keys H) as [_ ->].
  destruct H as (Hx & Hvx & Hy & Hv & He & Hg0 & Hc).
  destruct (Hg0 Hg) as [Hv0 _].
  destruct (Hst Hg) as (b & Hb & Eb & B1 & B2).
  unfold Exact.apply_input. rewrite Hl, Hr, Hj. cbn [andb]. rewrite Hv0.
  change (0 + 1) with 1.
  unfold Exact.move_x. cbn [Exact.px Exact.hy Exact.pvx Exact.hvy Exact.gr].
  rewrite Z.add_0_r. unfold Exact.clear in Hc. rewrite Hc.
  replace (0 <=? Exact.px s) with true by (symmetry; apply Z.leb_le; lia).
  replace (Exact.px s <=? 780) with true by (symmetry; apply Z.leb_le; lia).
  cbn [andb]. unfold Exact.move_y.
  cbn [Exact.px Exact.hy Exact.pvx Exact.hvy Exact.gr].
  destruct (find _ level) as [b'|] eqn:E.
  - apply find_some in E. destruct E as [Hb' Ho'].
    apply overlaps_iff in Ho'. destruct Ho' as (O1 & O2 & O3 & O4).
    apply negb_true_iff in Hc.
    assert (Hn : Exact.overlaps (Exact.px s) (Exact.hy s) b' = false).
    { destruct (Exact.overlaps _ _ b') eqn:E'; [|reflexivity].
      assert (existsb (Exact.overlaps (Exact.px s) (Exact.hy s)) level = true)
        by (apply existsb_exists; eauto).
      congruence. }
    assert (Hby : 2 * by_ b' = Exact.hy s + 40).
    { destruct (Z.eq_dec (2 * by_ b') (Exact.hy s + 40)) as [e|n];
        [exact e|].
      assert (Exact.overlaps (Exact.px s) (Exact.hy s) b' = true)
        by (apply overlaps_iff; lia).
      congruence. }
    change (0 <? 1) with true. cbv iota. f_equal. lia.
  - assert (Exact.overlaps (Exact.px s) (Exact.hy s + 1) b = true)
      by (apply overlaps_iff; lia).
    rewrite (find_none _ _ E b Hb) in H. discriminate.
Qed.

(** X11.  Standing still is stable.  In the game, when a frame begins
    with the body grounded and no left, right or jump key is held during
    it, [update_player] leaves the position, the vertical velocity and
    [on_ground] exactly as they were and sets [vx] to zero: gravity pulls
    the body half a pixel into the block it stands on and the landing
    puts it back. *)
Theorem rest_is_stable (inputs : list keystate) (keys : keystate) :
  on_ground (play inputs) = true ->
  left_held keys = false -> right_held keys = false ->
  jump_held keys = false ->
  update_player (play inputs) keys = set_vx (play inputs) (F32.of_int 0).
Proof.
  intros Hg Hl Hr Hj. destruct (play_exact inputs) as [E H].
  set (s := Exact.run level inputs Exact.spawn) in *.
  assert (Hst : Exact.standing level s).
  { apply exact_run_standing; [apply game_inv_spawn|]. discriminate. }
  rewrite E in Hg |- *. cbn [Exact.embed on_ground] in Hg.
  unfold update_player.
  rewrite (step_exact_small level s keys level_small (game_inv_small s H)).
  rewrite (exact_rest_stable s keys H Hst Hg Hl Hr Hj).
  destruct H as (_ & _ & _ & _ & _ & Hg0 & _). destruct (Hg0 Hg) as [Hv0 _].
  unfold Exact.embed, set_vx.
  cbn [x y vx vy on_ground Exact.px Exact.hy Exact.pvx Exact.hvy Exact.gr].
  now rewrite Hv0, Hg.
Qed.

Lemma rest_is_stable_witness :
  update_player (play (repeat no_keys 24)) no_keys
  = set_vx (play (repeat no_keys 24)) (F32.of_int 0).
Proof.
  apply (rest_is_stable (repeat no_keys 24) no_keys); vm_compute; reflexivity.
Defined.
